(** * The request/session engine of the provision API client

    A shallow embedding of [api/client.go]: the fluent request
    descriptor [R], the retry loop of [R.Response], the response
    decoder [R.Do], and the [Client] life cycle ([Close], [Info],
    [GetBlob]).

    Go maps ([url.Values], [http.Header]) are finite maps from strings
    to lists of strings.  Mutation of the descriptor is explicit record
    update; the client, the object heap and the log of network and
    timer effects live in a [World] that every executing function
    threads through. *)

From Stdlib Require Import Ascii String ZArith.
From stdpp Require Import strings list gmap sorting.

Local Open Scope string_scope.
Local Open Scope Z_scope.

(** ** The parts of the Go standard library the client leans on *)

Module GoStd.

Definition is_upper (a : ascii) : bool :=
  let n := nat_of_ascii a in (65 <=? n)%nat && (n <=? 90)%nat.

Definition is_lower (a : ascii) : bool :=
  let n := nat_of_ascii a in (97 <=? n)%nat && (n <=? 122)%nat.

Definition is_digit (a : ascii) : bool :=
  let n := nat_of_ascii a in (48 <=? n)%nat && (n <=? 57)%nat.

Definition lower_ascii (a : ascii) : ascii :=
  if is_upper a then ascii_of_nat (nat_of_ascii a + 32) else a.

Definition upper_ascii (a : ascii) : ascii :=
  if is_lower a then ascii_of_nat (nat_of_ascii a - 32) else a.

(** [strings.ToLower], on ASCII text (bytes above 127 are kept). *)
Fixpoint ToLower (s : string) : string :=
  match s with
  | EmptyString => EmptyString
  | String a rest => String (lower_ascii a) (ToLower rest)
  end.

(** [strings.isSeparator]: ASCII letters, digits and the underscore
    are not separators, every other ASCII character is. *)
Definition isSeparator (a : ascii) : bool :=
  if (nat_of_ascii a <=? 127)%nat
  then negb (is_digit a || is_lower a || is_upper a || Ascii.eqb a "_")
  else false.

Fixpoint title_from (prev : ascii) (s : string) : string :=
  match s with
  | EmptyString => EmptyString
  | String a rest =>
      String (if isSeparator prev then upper_ascii a else a) (title_from a rest)
  end.

(** [strings.Title]: the letter that starts each word is upper-cased;
    [prev] starts as a blank. *)
Definition Title (s : string) : string := title_from " " s.

(** [strings.Contains s ","]. *)
Fixpoint contains_comma (s : string) : bool :=
  match s with
  | EmptyString => false
  | String a rest => Ascii.eqb a "," || contains_comma rest
  end.

(** [textproto.validHeaderFieldByte]: the token characters of RFC 7230. *)
Definition validHeaderFieldByte (a : ascii) : bool :=
  is_digit a || is_lower a || is_upper a
  || existsb (Ascii.eqb a)
       ["!"; "#"; "$"; "%"; "&"; "'"; "*"; "+"; "-"; "."; "^"; "_"; "`"; "|"; "~"]%char.

Fixpoint all_valid (s : string) : bool :=
  match s with
  | EmptyString => true
  | String a rest => validHeaderFieldByte a && all_valid rest
  end.

Fixpoint canon_from (upper : bool) (s : string) : string :=
  match s with
  | EmptyString => EmptyString
  | String a rest =>
      String (if upper then upper_ascii a else lower_ascii a)
             (canon_from (Ascii.eqb a "-") rest)
  end.

(** [textproto.CanonicalMIMEHeaderKey]: a key with a byte outside the
    token characters is returned as it is; otherwise the first letter
    and every letter after a hyphen is upper-cased, the rest
    lower-cased. *)
Definition CanonicalMIMEHeaderKey (s : string) : string :=
  if all_valid s then canon_from true s else s.

(** The double-quote character, for the quoted entity tags. *)
Definition dquote : string := String (ascii_of_nat 34) EmptyString.

End GoStd.

(** ** [url.Values] and [http.Header] *)

Module Values.

(** [url.Values.Set]: [v[key] = []string{value}]. *)
Definition Set_ (key value : string) (v : gmap string (list string))
  : gmap string (list string) :=
  <[key := [value]]> v.

End Values.

Module Header.

(** [http.Header.Add]: append to the values of the canonical key. *)
Definition Add (key value : string) (h : gmap string (list string))
  : gmap string (list string) :=
  let k := GoStd.CanonicalMIMEHeaderKey key in
  <[k := (default [] (h !! k) ++ [value])%list]> h.

(** [http.Header.Set]: replace the values of the canonical key. *)
Definition Set_ (key value : string) (h : gmap string (list string))
  : gmap string (list string) :=
  <[GoStd.CanonicalMIMEHeaderKey key := [value]]> h.

(** [http.Header.Get]: the first value of the canonical key, or the
    empty string. *)
Definition Get (key : string) (h : gmap string (list string)) : string :=
  match h !! GoStd.CanonicalMIMEHeaderKey key with
  | Some (v :: _) => v
  | _ => ""
  end.

End Header.

(** ** [models.Error] *)

Module Models.

(** Modelled from the spec: [models.Error] (package [models] is not
    part of the sources at hand), the accumulated validation error of
    a request descriptor.  It carries the messages recorded so far and
    remembers whether anything was recorded: a descriptor on which a
    builder step recorded an error fails closed. *)
Record Error := mkError {
  Model : string;
  Key : string;
  Type_ : string;
  Messages : list string;
  Code : Z;
  containsError : bool
}.

Definition set_Model (m : string) (e : Error) : Error :=
  mkError m (Key e) (Type_ e) (Messages e) (Code e) (containsError e).
Definition set_Key (k : string) (e : Error) : Error :=
  mkError (Model e) k (Type_ e) (Messages e) (Code e) (containsError e).
Definition set_Code (c : Z) (e : Error) : Error :=
  mkError (Model e) (Key e) (Type_ e) (Messages e) c (containsError e).

(** Modelled from the spec: [e.Errorf(...)] records one more message
    (the caller formats it). *)
Definition Errorf (msg : string) (e : Error) : Error :=
  mkError (Model e) (Key e) (Type_ e) (Messages e ++ [msg])%list (Code e) true.

(** Modelled from the spec: [e.AddError(src)] for a foreign [error]
    value; [nil] records nothing, anything else records its text. *)
Definition AddError (src : option string) (e : Error) : Error :=
  match src with
  | None => e
  | Some msg => Errorf msg e
  end.

(** Modelled from the spec: [e.ContainsError()] tells whether anything
    was recorded. *)
Definition ContainsError (e : Error) : bool := containsError e.

(** Modelled from the spec: [e.HasError()] is the error itself when it
    holds one, else [nil]. *)
Definition HasError (e : Error) : option Error :=
  if ContainsError e then Some e else None.

(** Modelled from the spec: [models.Info], the cached description of
    the server (architecture, OS, address, static-file port). *)
Record Info := mkInfo {
  Arch : string;
  Os : string;
  Address : string;
  FilePort : Z
}.

(** Modelled from the spec: [&models.Info{}], every field at its zero
    value. *)
Definition emptyInfo : Info := mkInfo "" "" "" 0.

End Models.

(** ** Data of the [api] package *)

(** [APIPATH], the base path of every endpoint. *)
Definition APIPATH : string := "/api/v3".

(** A [context.Context] as far as the engine looks at it: the shared
    background context, one derived from it with a deadline, or one
    the caller supplied. *)
Inductive Context :=
| CtxBackground
| CtxDeadline (timeout : Z)
| CtxCaller (id : nat).

Definition is_background (c : Context) : bool :=
  match c with CtxBackground => true | _ => false end.

(** The body source [r.body]: absent, the [bytes.Reader] that [Body]
    builds (it always rewinds), an [io.Reader] that cannot seek, or an
    [io.ReadSeeker] together with whether [Seek(0, io.SeekStart)]
    answers [(0, nil)]. *)
Inductive BodySrc :=
| BodyNone
| BodyBytes (data : string)
| BodyReader (data : string)
| BodySeeker (data : string) (rewinds : bool).

(** What a caller hands to [R.Body]: [nil], a reader, a byte slice, or
    any other value together with what [json.Marshal] makes of it (the
    bytes, or an error text). *)
Inductive BodyArg :=
| ArgNil
| ArgReader (data : string)
| ArgReadSeeker (data : string) (rewinds : bool)
| ArgBytes (data : string)
| ArgValue (marshal : string + string).

Record URL := mkURL {
  Raw : string;
  RawQuery : string
}.

Record Request := mkRequest {
  reqCtx : Context;
  reqMethod : string;
  reqURL : URL;
  reqHeader : gmap string (list string);
  reqBody : BodySrc
}.

(** An [http.Response]: the body is the text that can be read from it,
    and the error, if any, that ends the reading. *)
Record HttpResponse := mkResponse {
  StatusCode : Z;
  respHeader : gmap string (list string);
  respBody : string;
  respReadErr : option string;
  ContentLength : Z
}.

(** One call of [http.Client.Do]: a response or a transport error, and
    whether another goroutine closes the client while the call is in
    flight. *)
Record Attempt := mkAttempt {
  outcome : HttpResponse + string;
  closedMeanwhile : bool
}.

(** What [models.ModTimeSha.Regenerate] and the file system answer for
    one [*os.File]. *)
Record FileOracle := mkFileOracle {
  statErr : bool;
  regenErr : option string;
  mtsString : string;
  truncErr : option string
}.

Inductive WriterKind :=
| PlainWriter
| WriteSeeker
| OsFile (f : FileOracle).

(** An [io.Writer] destination: what it holds, where its cursor is,
    what more it can do, and the error its [Write] reports, if any. *)
Record Sink := mkSink {
  content : string;
  offset : nat;
  kind : WriterKind;
  writeErr : option string
}.

(** A Go value that [Do] can decode into: a [models.Info], a writer
    seen as a plain value, or anything else (by its rendering). *)
Inductive Obj :=
| OInfo (i : Models.Info)
| OSink (s : Sink)
| OOther (rendering : string).

(** The [val] argument of [Do]: [nil], a writer, or a pointer to a
    heap object. *)
Inductive Dest :=
| DestNil
| DestWriter (s : Sink)
| DestPtr (l : nat).

(** An [error] as the callers of [Do] see it: the descriptor's own
    [*models.Error] (or one decoded from the server), or a foreign
    error. *)
Inductive GoError :=
| ErrModel (e : Models.Error)
| ErrPlain (msg : string).

(** A call either returns or panics. *)
Inductive Outcome (A : Type) :=
| Ret (a : A)
| Panic (msg : string).
Arguments Ret {A} a.
Arguments Panic {A} msg.

(** The signal channel [c.closer]. *)
Inductive Chan :=
| ChanNil
| ChanOpen
| ChanClosed.

Record Client := mkClient {
  RoundTripTimeout : Z;
  endpoint : string;
  username : string;
  password : string;
  neverProxy : bool;
  token : option string;
  closer : Chan;
  closed : bool;
  c_traceLvl : string;
  c_traceToken : string;
  info : option nat;
  urlProxy : string
}.

Definition set_closer (x : Chan) (c : Client) : Client :=
  mkClient (RoundTripTimeout c) (endpoint c) (username c) (password c)
    (neverProxy c) (token c) x (closed c) (c_traceLvl c) (c_traceToken c)
    (info c) (urlProxy c).
Definition set_closed (x : bool) (c : Client) : Client :=
  mkClient (RoundTripTimeout c) (endpoint c) (username c) (password c)
    (neverProxy c) (token c) (closer c) x (c_traceLvl c) (c_traceToken c)
    (info c) (urlProxy c).
Definition set_info (x : option nat) (c : Client) : Client :=
  mkClient (RoundTripTimeout c) (endpoint c) (username c) (password c)
    (neverProxy c) (token c) (closer c) (closed c) (c_traceLvl c)
    (c_traceToken c) x (urlProxy c).

(** The request descriptor [R].  The pointer [r.c] is the one client of
    the [World]. *)
Record R := mkR {
  method : string;
  uri : option URL;
  header : gmap string (list string);
  body : BodySrc;
  Req_ : option Request;
  Resp : option HttpResponse;
  err : Models.Error;
  paranoid : bool;
  noRetry : bool;
  traceLvl : string;
  traceToken : string;
  proxy : string;
  params : gmap string (list string);
  ctx : Context;
  eTag : string
}.

Definition set_method (x : string) (r : R) : R :=
  mkR x (uri r) (header r) (body r) (Req_ r) (Resp r) (err r) (paranoid r)
    (noRetry r) (traceLvl r) (traceToken r) (proxy r) (params r) (ctx r) (eTag r).
Definition set_uri (x : option URL) (r : R) : R :=
  mkR (method r) x (header r) (body r) (Req_ r) (Resp r) (err r) (paranoid r)
    (noRetry r) (traceLvl r) (traceToken r) (proxy r) (params r) (ctx r) (eTag r).
Definition set_header (x : gmap string (list string)) (r : R) : R :=
  mkR (method r) (uri r) x (body r) (Req_ r) (Resp r) (err r) (paranoid r)
    (noRetry r) (traceLvl r) (traceToken r) (proxy r) (params r) (ctx r) (eTag r).
Definition set_body (x : BodySrc) (r : R) : R :=
  mkR (method r) (uri r) (header r) x (Req_ r) (Resp r) (err r) (paranoid r)
    (noRetry r) (traceLvl r) (traceToken r) (proxy r) (params r) (ctx r) (eTag r).
Definition set_Req (x : option Request) (r : R) : R :=
  mkR (method r) (uri r) (header r) (body r) x (Resp r) (err r) (paranoid r)
    (noRetry r) (traceLvl r) (traceToken r) (proxy r) (params r) (ctx r) (eTag r).
Definition set_Resp (x : option HttpResponse) (r : R) : R :=
  mkR (method r) (uri r) (header r) (body r) (Req_ r) x (err r) (paranoid r)
    (noRetry r) (traceLvl r) (traceToken r) (proxy r) (params r) (ctx r) (eTag r).
Definition set_err (x : Models.Error) (r : R) : R :=
  mkR (method r) (uri r) (header r) (body r) (Req_ r) (Resp r) x (paranoid r)
    (noRetry r) (traceLvl r) (traceToken r) (proxy r) (params r) (ctx r) (eTag r).
Definition set_paranoid (x : bool) (r : R) : R :=
  mkR (method r) (uri r) (header r) (body r) (Req_ r) (Resp r) (err r) x
    (noRetry r) (traceLvl r) (traceToken r) (proxy r) (params r) (ctx r) (eTag r).
Definition set_noRetry (x : bool) (r : R) : R :=
  mkR (method r) (uri r) (header r) (body r) (Req_ r) (Resp r) (err r) (paranoid r)
    x (traceLvl r) (traceToken r) (proxy r) (params r) (ctx r) (eTag r).
Definition set_traceLvl (x : string) (r : R) : R :=
  mkR (method r) (uri r) (header r) (body r) (Req_ r) (Resp r) (err r) (paranoid r)
    (noRetry r) x (traceToken r) (proxy r) (params r) (ctx r) (eTag r).
Definition set_traceToken (x : string) (r : R) : R :=
  mkR (method r) (uri r) (header r) (body r) (Req_ r) (Resp r) (err r) (paranoid r)
    (noRetry r) (traceLvl r) x (proxy r) (params r) (ctx r) (eTag r).
Definition set_proxy (x : string) (r : R) : R :=
  mkR (method r) (uri r) (header r) (body r) (Req_ r) (Resp r) (err r) (paranoid r)
    (noRetry r) (traceLvl r) (traceToken r) x (params r) (ctx r) (eTag r).
Definition set_params (x : gmap string (list string)) (r : R) : R :=
  mkR (method r) (uri r) (header r) (body r) (Req_ r) (Resp r) (err r) (paranoid r)
    (noRetry r) (traceLvl r) (traceToken r) (proxy r) x (ctx r) (eTag r).
Definition set_ctx (x : Context) (r : R) : R :=
  mkR (method r) (uri r) (header r) (body r) (Req_ r) (Resp r) (err r) (paranoid r)
    (noRetry r) (traceLvl r) (traceToken r) (proxy r) (params r) x (eTag r).
Definition set_eTag (x : string) (r : R) : R :=
  mkR (method r) (uri r) (header r) (body r) (Req_ r) (Resp r) (err r) (paranoid r)
    (noRetry r) (traceLvl r) (traceToken r) (proxy r) (params r) (ctx r) x.

(** [r.err.Errorf(...)] on the descriptor. *)
Definition r_Errorf (msg : string) (r : R) : R :=
  set_err (Models.Errorf msg (err r)) r.

(** [r.err.AddError(e)] on the descriptor. *)
Definition r_AddError (e : option string) (r : R) : R :=
  set_err (Models.AddError e (err r)) r.

(** A typed entity as the builder sees it: [Prefix()], [Key()] and the
    name [%T] prints for its Go type. *)
Record ModelRef := mkModelRef {
  Prefix : string;
  MKey : string;
  GoType : string
}.

(** What [GenPatch] answers: an error, or a patch together with what
    [json.Marshal] makes of it. *)
Inductive GenResult :=
| GenErr (msg : string)
| GenOk (marshal : string + string).

(** Everything outside the package that the engine consults: the
    standard library functions whose results it branches on, the
    process environment, and the network. *)
Record Env := mkEnv {
  path_Join : list string -> string;
  url_ParseRequestURI : string -> option string;
  url_Encode : gmap string (list string) -> string;
  base64_Encode : string -> string;
  http_NewRequest : Context -> string -> URL -> option string;
  http_StatusText : Z -> string;
  httputil_DumpResponse : HttpResponse -> string;
  mime_ParseMediaType : string -> string;
  json_UnmarshalError : string -> Models.Error + string;
  json_Decode : string -> Obj -> Obj * option string;
  models_Remarshal : gmap string (list string) -> Obj -> Obj * option string;
  env_RS_LOCAL_PROXY : string;
  os_isSocket : string -> bool;
  late_operand_read : bool;
  roundTrip : nat -> Request -> Attempt
}.

(** The mutable state an execution runs in: the client behind [r.c],
    the heap of decoded objects, every request handed to the
    transport, and every [time.Sleep] (in seconds). *)
Record World := mkWorld {
  client : Client;
  objs : list Obj;
  sent : list Request;
  slept : list Z
}.

Definition set_client (c : Client) (w : World) : World :=
  mkWorld c (objs w) (sent w) (slept w).
Definition set_objs (o : list Obj) (w : World) : World :=
  mkWorld (client w) o (sent w) (slept w).
Definition log_sent (q : Request) (w : World) : World :=
  mkWorld (client w) (objs w) (sent w ++ [q])%list (slept w).
Definition log_sleep (d : Z) (w : World) : World :=
  mkWorld (client w) (objs w) (sent w) (slept w ++ [d])%list.

(** ** The request builder *)

Definition one_of (x : string) (l : list string) : bool :=
  existsb (String.eqb x) l.

(** The loop of [Params]: [r.params.Set(args[i-1], args[i])] for
    [i = 1, 3, ...]. *)
Fixpoint setPairs (args : list string) (v : gmap string (list string))
  : gmap string (list string) :=
  match args with
  | k :: x :: rest => setPairs rest (Values.Set_ k x v)
  | _ => v
  end.

(** The loop of [Headers]: [r.header.Add(args[i-1], args[i])]. *)
Fixpoint addPairs (args : list string) (h : gmap string (list string))
  : gmap string (list string) :=
  match args with
  | k :: x :: rest => addPairs rest (Header.Add k x h)
  | _ => h
  end.

(** [len(args)&1 == 1]. *)
Definition odd_len (args : list string) : bool :=
  (Z.land (Z.of_nat (length args)) 1 =? 1)%Z.

Definition Params (args : list string) (r : R) : R :=
  if odd_len args
  then r_Errorf "Params was not passed an even number of arguments" r
  else set_params (setPairs args (params r)) r.

Definition Headers (args : list string) (r : R) : R :=
  if odd_len args
  then r_Errorf "WithHeaders was not passed an even number of arguments" r
  else set_header (addPairs args (header r)) r.

Definition Context_ (c : Context) (r : R) : R := set_noRetry true (set_ctx c r).
Definition Proxy (p : string) (r : R) : R := set_proxy p r.
Definition Trace (lvl : string) (r : R) : R := set_traceLvl lvl r.
Definition TraceToken (t : string) (r : R) : R := set_traceToken t r.
Definition Meth (v : string) (r : R) : R := set_method v r.
Definition Get (r : R) : R := Meth "GET" r.
Definition Del (r : R) : R := Meth "DELETE" r.
Definition Head (r : R) : R := Meth "HEAD" r.
Definition ParanoidPatch (r : R) : R := set_paranoid true r.
Definition FailFast (r : R) : R := set_noRetry true r.

Definition Wait (etag dur : string) (r : R) : R :=
  set_header (Header.Add "Prefer" ("wait=" +:+ dur)
                (Header.Add "If-None-Match" etag (header r))) r.

Definition Body (b : BodyArg) (r : R) : R :=
  match b with
  | ArgNil => Headers ["Content-Type"; "application/json"] r
  | ArgReader d =>
      set_body (BodyReader d) (Headers ["Content-Type"; "application/octet-stream"] r)
  | ArgReadSeeker d ok =>
      set_body (BodySeeker d ok) (Headers ["Content-Type"; "application/octet-stream"] r)
  | ArgBytes d =>
      set_body (BodyBytes d) (Headers ["Content-Type"; "application/octet-stream"] r)
  | ArgValue m =>
      let r1 := Headers ["Content-Type"; "application/json"] r in
      match m with
      | inr e => r_AddError (Some e) r1
      | inl buf => set_body (BodyBytes buf) r1
      end
  end.

Definition Put (b : BodyArg) (r : R) : R := Body b (Meth "PUT" r).
Definition Post (b : BodyArg) (r : R) : R := Body b (Meth "POST" r).
Definition Patch (marshal : string + string) (r : R) : R :=
  Body (ArgValue marshal) (Meth "PATCH" r).

(** [PatchObj]; [gen] is what [GenPatch(old, new, paranoid)] answers. *)
Definition PatchObj (gen : bool -> GenResult) (r : R) : R :=
  match gen (paranoid r) with
  | GenErr e => r_AddError (Some e) r
  | GenOk m => Body (ArgValue m) (Meth "PATCH" r)
  end.

(** Outcomes of compiling the arguments of [Filter]. *)
Inductive FilterResult :=
| FilterErr (msg : string)
| FilterOk (finalParams : list string).

(** The loop of [Filter].  [filterArgs] is what is left from index [i]
    on, so [len(filterArgs)-i] is its length. *)
Fixpoint compileFilter (filterArgs finalParams : list string) : FilterResult :=
  match filterArgs with
  | [] => FilterOk finalParams
  | filter :: rest =>
      if one_of filter ["reverse"; "decode"] then
        compileFilter rest (finalParams ++ [filter; "true"])%list
      else if one_of filter ["sort"; "limit"; "offset"; "slim"; "params"] then
        match rest with
        | [] => FilterErr ("Invalid Filter: " +:+ filter +:+ " requires exactly one parameter")
        | v :: rest1 => compileFilter rest1 (finalParams ++ [filter; v])%list
        end
      else
        match rest with
        | [] => FilterErr ("Invalid Filter: " +:+ filter
                           +:+ " requires an op and at least 1 parameter")
        | rawop :: rest1 =>
            let op := GoStd.Title (GoStd.ToLower rawop) in
            if one_of op ["Eq"; "Lt"; "Lte"; "Gt"; "Gte"; "Ne"; "In"; "Nin"; "Re"] then
              match rest1 with
              | [] => FilterErr ("Invalid Filter: " +:+ filter +:+ " op " +:+ op
                                 +:+ " requires 1 parameter")
              | v :: rest2 =>
                  compileFilter rest2
                    (finalParams ++ [filter; op +:+ "(" +:+ v +:+ ")"])%list
              end
            else if one_of op ["Between"; "Except"] then
              match rest1 with
              | [] => FilterErr ("Invalid Filter: " +:+ filter +:+ " op " +:+ op
                                 +:+ " requires 1 or 2 parameters")
              | v :: rest2 =>
                  if GoStd.contains_comma v then
                    compileFilter rest2
                      (finalParams ++ [filter; op +:+ "(" +:+ v +:+ ")"])%list
                  else
                    match rest2 with
                    | [] => FilterErr ("Invalid Filter: " +:+ filter +:+ " op " +:+ op
                                       +:+ " requires 1 or 2 parameters")
                    | v2 :: rest3 =>
                        compileFilter rest3
                          (finalParams
                             ++ [filter; op +:+ "(" +:+ v +:+ "," +:+ v2 +:+ ")"])%list
                    end
              end
            else FilterErr ("Invalid Filter " +:+ filter +:+ ": unknown op " +:+ op)
        end
  end.

Section Builder.

Context (env : Env).

Definition locallyProxied (never : bool) : string :=
  if never then ""
  else
    let socketPath := env_RS_LOCAL_PROXY env in
    if negb (String.eqb socketPath "") && os_isSocket env socketPath
    then socketPath else "".

Definition realEndpoint (c : Client) : string :=
  if String.eqb (locallyProxied (neverProxy c)) "" then endpoint c
  else "http://unix".

(** [Client.UrlForProxy]: the parsed URL, or the parser's error. *)
Definition UrlForProxy (c : Client) (proxy_ : string) (args : list string)
  : URL + string :=
  let p := path_Join env [APIPATH; path_Join env args] in
  let raw := if String.eqb proxy_ "" then realEndpoint c +:+ p
             else realEndpoint c +:+ "/" +:+ proxy_ +:+ p in
  match url_ParseRequestURI env raw with
  | Some e => inr e
  | None => inl (mkURL raw "")
  end.

(** [Client.Req]. *)
Definition Req (c : Client) : R :=
  mkR "GET" None ∅ BodyNone None None
    (Models.mkError "" "" "CLIENT_ERROR" [] 0 false)
    false false (c_traceLvl c) (c_traceToken c) (urlProxy c) ∅
    CtxBackground "".

Definition UrlFor (c : Client) (args : list string) (r : R) : R :=
  match UrlForProxy c (proxy r) args with
  | inr e => r_AddError (Some e) r
  | inl u => set_uri (Some u) r
  end.

Definition UrlForM (c : Client) (m : ModelRef) (rest : list string) (r : R) : R :=
  let r1 := set_err (Models.set_Key (MKey m) (Models.set_Model (Prefix m) (err r))) r in
  UrlFor c (Prefix m :: MKey m :: rest) r1.

Definition List_ (c : Client) (prefix : string) (r : R) : R :=
  UrlFor c [prefix] (Get r).

Definition PatchTo (c : Client) (old new : ModelRef) (gen : bool -> GenResult)
    (r : R) : R :=
  if negb (String.eqb (Prefix old) (Prefix new))
     || negb (String.eqb (MKey old) (MKey new))
  then
    let r1 := set_err (Models.set_Key (MKey old)
                         (Models.set_Model (Prefix old) (err r))) r in
    r_Errorf ("Cannot patch from " +:+ GoType old +:+ " to " +:+ GoType new
              +:+ ", or change keys from " +:+ MKey old +:+ " to " +:+ MKey new) r1
  else UrlForM c old [] (PatchObj gen r).

Definition Filter (c : Client) (prefix : string) (filterArgs : list string)
    (r : R) : R :=
  let r1 := UrlFor c [prefix] (Get r) in
  match compileFilter filterArgs [] with
  | FilterErr msg => r_Errorf msg r1
  | FilterOk finalParams => Params finalParams r1
  end.

(** One call of a chain of builder methods. *)
Inductive Step :=
| SContext (c : Context)
| SProxy (p : string)
| STrace (lvl : string)
| STraceToken (t : string)
| SMeth (v : string)
| SGet
| SList (prefix : string)
| SDel
| SHead
| SPut (b : BodyArg)
| SPatch (marshal : string + string)
| SParanoidPatch
| SWait (etag dur : string)
| SPatchObj (gen : bool -> GenResult)
| SPatchTo (old new : ModelRef) (gen : bool -> GenResult)
| SPost (b : BodyArg)
| SUrlFor (args : list string)
| SUrlForM (m : ModelRef) (rest : list string)
| SParams (args : list string)
| SFilter (prefix : string) (filterArgs : list string)
| SHeaders (args : list string)
| SBody (b : BodyArg)
| SFailFast.

Definition step (c : Client) (s : Step) (r : R) : R :=
  match s with
  | SContext x => Context_ x r
  | SProxy p => Proxy p r
  | STrace lvl => Trace lvl r
  | STraceToken t => TraceToken t r
  | SMeth v => Meth v r
  | SGet => Get r
  | SList prefix => List_ c prefix r
  | SDel => Del r
  | SHead => Head r
  | SPut b => Put b r
  | SPatch m => Patch m r
  | SParanoidPatch => ParanoidPatch r
  | SWait etag dur => Wait etag dur r
  | SPatchObj gen => PatchObj gen r
  | SPatchTo old new gen => PatchTo c old new gen r
  | SPost b => Post b r
  | SUrlFor args => UrlFor c args r
  | SUrlForM m rest => UrlForM c m rest r
  | SParams args => Params args r
  | SFilter prefix filterArgs => Filter c prefix filterArgs r
  | SHeaders args => Headers args r
  | SBody b => Body b r
  | SFailFast => FailFast r
  end.

(** [c.Req().m1(...).m2(...)...]: the chain applied from left to right. *)
Definition chain (c : Client) (steps : list Step) (r : R) : R :=
  fold_left (fun acc s => step c s acc) steps r.

End Builder.

(** ** The retry/execution engine *)

(** The fixed back-off schedule of [Response], in seconds. *)
Definition timeouts : list Z := [1; 1; 2; 3; 5; 8].

(** How the retry loop is left: by a [return nil, r.err] from inside
    it, or by falling out of it ([break], or the schedule running out)
    with the last [resp] and [err]. *)
Inductive LoopExit :=
| Returned (e : Models.Error) (r : R) (w : World)
| Broke (resp : option HttpResponse) (err_ : option string) (r : R) (w : World).

(** [Client.Token]. *)
Definition Token (c : Client) : string := default "" (token c).

(** A concurrent [Close] landing on the client. *)
Definition interfere (a : Attempt) (c : Client) : Client :=
  if closedMeanwhile a
  then set_info None (set_closed true (set_closer ChanClosed c))
  else c.

Definition resp_of (a : Attempt) : option HttpResponse :=
  match outcome a with inl x => Some x | inr _ => None end.

Definition err_of (a : Attempt) : option string :=
  match outcome a with inl _ => None | inr e => Some e end.

(** [Seek(0, io.SeekStart)] answers [(0, nil)]. *)
Definition rewinds_ok (b : BodySrc) : bool :=
  match b with
  | BodyBytes _ => true
  | BodySeeker _ ok => ok
  | _ => false
  end.

(** [r.body.(io.ReadSeeker)] succeeds. *)
Definition is_seeker (b : BodySrc) : bool :=
  match b with
  | BodyBytes _ | BodySeeker _ _ => true
  | _ => false
  end.

Section Engine.

Context (env : Env).

(** [Client.Authorize], on the header map the request shares with
    the descriptor. *)
Definition Authorize (c : Client) (h : gmap string (list string))
  : gmap string (list string) :=
  if String.eqb (Header.Get "Authorization" h) "" then
    if negb (String.eqb (Token c) "")
    then Header.Set_ "Authorization" ("Bearer " +:+ Token c) h
    else Header.Set_ "Authorization"
           ("Basic " +:+ base64_Encode env (username c +:+ ":" +:+ password c)) h
  else h.

(** The [for _, waitFor := range timeouts] loop of [Response]; [u] is
    [r.uri], already known not to be nil. *)
Fixpoint retryLoop (ts : list Z) (u : URL) (resp : option HttpResponse)
    (err_ : option string) (r : R) (w : World) : LoopExit :=
  match ts with
  | [] => Broke resp err_ r w
  | waitFor :: rest =>
      match http_NewRequest env (ctx r) (method r) u with
      | Some e => let r1 := r_AddError (Some e) r in Returned (err r1) r1 w
      | None =>
          let h := Authorize (client w) (header r) in
          let req := mkRequest (ctx r) (method r) u h (body r) in
          let r1 := set_Req (Some req) (set_header h r) in
          let a := roundTrip env (length (sent w)) req in
          let w1 := log_sent req w in
          let w2 := set_client (interfere a (client w1)) w1 in
          let resp1 := resp_of a in
          let err1 := err_of a in
          if bool_decide (err1 = None) || noRetry r1 then Broke resp1 err1 r1 w2
          else
            match body r1 with
            | BodyNone =>
                if closed (client w2) then
                  let r2 := r_Errorf "Connection Closed" r1 in
                  Returned (err r2) r2 w2
                else
                  let w3 := set_client (set_info None (client w2)) w2 in
                  retryLoop rest u resp1 err1 r1 (log_sleep waitFor w3)
            | b =>
                if negb (is_seeker b) then Broke resp1 err1 r1 w2
                else if negb (rewinds_ok b) then Broke resp1 err1 r1 w2
                else if closed (client w2) then
                  let r2 := r_Errorf "Connection Closed" r1 in
                  Returned (err r2) r2 w2
                else retryLoop rest u resp1 err1 r1 (log_sleep waitFor w2)
            end
      end
  end.

(** What [Response] does once the loop is left: a [return] from
    inside it stands; otherwise a transport error is recorded and
    returned, or the response and its [ETag] are kept and returned. *)
Definition after_loop (x : LoopExit)
  : Outcome (option HttpResponse * option Models.Error * R * World) :=
  match x with
  | Returned e r5 w5 => Ret (None, Some e, r5, w5)
  | Broke _ (Some e) r5 w5 =>
      let r6 := r_AddError (Some e) r5 in
      Ret (None, Some (err r6), r6, w5)
  | Broke None None r5 w5 => Panic "nil pointer dereference"
  | Broke (Some rsp) None r5 w5 =>
      let r6 := set_eTag (Header.Get "ETag" (respHeader rsp))
                  (set_Resp (Some rsp) r5) in
      Ret (Some rsp, Models.HasError (err r6), r6, w5)
  end.

(** [R.Response]: the pair it returns, the descriptor and the world
    afterwards. *)
Definition Response (r : R) (w : World)
  : Outcome (option HttpResponse * option Models.Error * R * World) :=
  match uri r with
  | None =>
      let r1 := r_Errorf "No URL to talk to" r in
      Ret (None, Some (err r1), r1, w)
  | Some u0 =>
      let r1 :=
        if (RoundTripTimeout (client w) >? 0) && is_background (ctx r)
        then set_ctx (CtxDeadline (RoundTripTimeout (client w))) (set_noRetry true r)
        else r in
      let u := mkURL (Raw u0) (url_Encode env (params r1)) in
      let r2 := set_uri (Some u) r1 in
      if closed (client w) then
        let r3 := r_Errorf "Connection Closed" r2 in
        Ret (None, Some (err r3), r3, w)
      else if Models.ContainsError (err r2) then
        Ret (None, Some (err r2), r2, w)
      else
        let r3 := Headers ["Cache-Control"; "no-store"] r2 in
        let r4 :=
          if negb (String.eqb (traceLvl r3) "")
          then Headers ["X-Log-Token"; traceToken r3]
                 (Headers ["X-Log-Request"; traceLvl r3] r3)
          else r3 in
        after_loop (retryLoop timeouts u None None r4 w)
  end.

End Engine.

(** ** The response decoder *)

(** [Write] on a sink: the bytes go in at the cursor, which moves on. *)
Definition sink_write (data : string) (s : Sink) : Sink :=
  let n := (offset s + String.length data)%nat in
  mkSink (substring 0 (offset s) (content s) +:+ data
          +:+ substring n (String.length (content s) - n) (content s))
         n (kind s) (writeErr s).

(** [Seek(0, io.SeekEnd)] on a sink that can seek; [Do] does not look
    at what the call returns. *)
Definition sink_seek_end (s : Sink) : Sink :=
  mkSink (content s) (String.length (content s)) (kind s) (writeErr s).

(** [Truncate(sz)]. *)
Definition sink_truncate (sz : nat) (s : Sink) : Sink :=
  mkSink (substring 0 sz (content s)) (offset s) (kind s) (writeErr s).

(** [wr.(io.WriteSeeker)] succeeds. *)
Definition is_WriteSeeker (s : Sink) : bool :=
  match kind s with PlainWriter => false | _ => true end.

(** [io.Copy(wr, resp.Body)]. *)
Definition io_Copy (s : Sink) (resp : HttpResponse) : Sink * option string :=
  if String.eqb (respBody resp) "" then (s, respReadErr resp)
  else
    match writeErr s with
    | Some e => (s, Some e)
    | None => (sink_write (respBody resp) s, respReadErr resp)
    end.

(** [ioutil.ReadAll(resp.Body)]. *)
Definition ReadAll (resp : HttpResponse) : string + string :=
  match respReadErr resp with
  | Some e => inr e
  | None => inl (respBody resp)
  end.

(** The Go value behind [val]. *)
Definition load (val : Dest) (w : World) : Obj :=
  match val with
  | DestNil => OOther ""
  | DestWriter s => OSink s
  | DestPtr l => default (OOther "") (objs w !! l)
  end.

(** Writing a decoded value back through [val]. *)
Definition store (val : Dest) (o : Obj) (w : World) : Dest * World :=
  match val, o with
  | DestPtr l, _ => (val, set_objs (<[l := o]> (objs w)) w)
  | DestWriter _, OSink s => (DestWriter s, w)
  | _, _ => (val, w)
  end.

Definition is_nil (val : Dest) : bool :=
  match val with DestNil => true | _ => false end.

Section Decoder.

Context (env : Env).

(** The [HEAD] error of [Do]: status text and code on [r.err]. *)
Definition status_error (code : Z) (r : R) : R :=
  let r1 := r_Errorf (http_StatusText env code) r in
  set_err (Models.set_Code code (err r1)) r1.

(** The tail of [Do] once writers are dealt with: [HEAD], 304, and
    the decoding by content type. *)
Definition decode_tail (val : Dest) (resp : HttpResponse) (r : R) (w : World)
  : option GoError * Dest * R * World :=
  if String.eqb (method r) "HEAD" then
    if (StatusCode resp <=? 300) || (StatusCode resp =? 304)%Z then
      if negb (is_nil val) then
        let '(o, e) := models_Remarshal env (respHeader resp) (load val w) in
        let '(val1, w1) := store val o w in
        (option_map ErrPlain e, val1, r, w1)
      else (None, val, r, w)
    else
      let r1 := status_error (StatusCode resp) r in
      (Some (ErrModel (err r1)), val, r1, w)
  else if (StatusCode resp =? 304)%Z then (None, val, r, w)
  else
    let ct := Header.Get "Content-Type" (respHeader resp) in
    let mt := mime_ParseMediaType env ct in
    if negb (String.eqb mt "application/json") then
      let r1 := r_Errorf ("Cannot handle content-type " +:+ ct) r in
      let r2 := r_Errorf ("Resp: " +:+ String (ascii_of_nat 10) EmptyString
                          +:+ httputil_DumpResponse env resp) r1 in
      let r3 := r_Errorf ("No decoder for content-type " +:+ ct) r2 in
      (Some (ErrModel (err r3)), val, r3, w)
    else if negb (is_nil val) && negb (ContentLength resp =? 0)%Z then
      let '(o, e) := json_Decode env (respBody resp) (load val w) in
      let '(val1, w1) := store val o w in
      let r1 := r_AddError e r in
      (option_map ErrModel (Models.HasError (err r1)), val1, r1, w1)
    else (option_map ErrModel (Models.HasError (err r)), val, r, w).

(** What [Do] makes of the response once [Response] has returned it
    without error (from [if resp.StatusCode >= 400] on). *)
Definition decode_response (val : Dest) (resp : HttpResponse) (r2 : R) (w2 : World)
  : option GoError * Dest * R * World :=
  if StatusCode resp >=? 400 then
    if String.eqb (method r2) "HEAD" then
      let r3 := status_error (StatusCode resp) r2 in
      (Some (ErrModel (err r3)), val, r3, w2)
    else
      match ReadAll resp with
      | inr e => (Some (ErrPlain e), val, r2, w2)
      | inl buf =>
          match json_UnmarshalError env buf with
          | inr e =>
              let r3 := set_err (Models.set_Code (StatusCode resp) (err r2)) r2 in
              let r4 := r_AddError (Some e) r3 in
              let r5 := r_Errorf ("Raw response: " +:+ buf) r4 in
              (Some (ErrModel (err r5)), val, r5, w2)
          | inl res => (Some (ErrModel res), val, r2, w2)
          end
      end
  else
    let r3 := set_eTag (Header.Get "ETag" (respHeader resp)) r2 in
    match val with
    | DestWriter wr =>
        if (StatusCode resp =? 304)%Z then
          if is_WriteSeeker wr
          then (None, DestWriter (sink_seek_end wr), r3, w2)
          else (None, val, r3, w2)
        else if StatusCode resp <? 300 then
          let '(wr1, e) := io_Copy wr resp in
          let r4 := r_AddError e r3 in
          (option_map ErrModel (Models.HasError (err r4)), DestWriter wr1, r4, w2)
        else decode_tail val resp r3 w2
    | _ => decode_tail val resp r3 w2
    end.

(** The [Accept] headers [Do] adds before it executes the request. *)
Definition accept_headers (val : Dest) (r : R) : R :=
  let r0 := Headers ["Accept"; "application/json"] r in
  match val with
  | DestWriter _ => Headers ["Accept"; "application/octet-stream"] r0
  | _ => r0
  end.

(** [R.Do]: the error it returns, the destination, the descriptor and
    the world afterwards. *)
Definition Do (val : Dest) (r : R) (w : World)
  : Outcome (option GoError * Dest * R * World) :=
  match Response env (accept_headers val r) w with
  | Panic m => Panic m
  | Ret (_, Some e, r2, w2) => Ret (Some (ErrModel e), val, r2, w2)
  | Ret (None, None, _, _) => Panic "nil pointer dereference"
  | Ret (Some resp, None, r2, w2) => Ret (decode_response val resp r2 w2)
  end.

End Decoder.

(** ** The client life cycle *)

(** [Client.Close]: [close(c.closer)] panics on a channel that is
    closed already (or nil); otherwise the client is marked closed and
    the cached [Info] dropped. *)
Definition Close (c : Client) : Outcome Client :=
  match closer c with
  | ChanOpen => Ret (set_info None (set_closed true (set_closer ChanClosed c)))
  | ChanClosed => Panic "close of closed channel"
  | ChanNil => Panic "close of nil channel"
  end.

Section Session.

Context (env : Env).

(** [Client.Info]: the pointer it returns and the error.  The first
    operand of [return c.info, c.Req()...Do(c.info)] is read after
    the call when [late_operand_read] holds (Go leaves the order
    open). *)
Definition Info (w : World) : Outcome (option nat * option GoError * World) :=
  match info (client w) with
  | Some l => Ret (Some l, None, w)
  | None =>
      let l := length (objs w) in
      let w1 := set_client (set_info (Some l) (client w))
                  (set_objs (objs w ++ [OInfo Models.emptyInfo])%list w) in
      match Do env (DestPtr l) (UrlFor env (client w1) ["info"] (Req (client w1))) w1 with
      | Panic m => Panic m
      | Ret (e, _, _, w2) =>
          Ret (if late_operand_read env then info (client w2) else Some l, e, w2)
      end
  end.

(** [Client.GetBlob]: the error it returns, the destination and the
    world afterwards. *)
Definition GetBlob (dest : Sink) (at_ : list string) (w : World)
  : Outcome (option GoError * Sink * World) :=
  let req := UrlFor env (client w) [path_Join env ["/"; path_Join env at_]]
               (Req (client w)) in
  let startSz := match kind dest with
                 | OsFile f => if statErr f then 0%nat else String.length (content dest)
                 | _ => 0%nat
                 end in
  let shasum := match kind dest with
                | OsFile f => match regenErr f with
                              | Some _ => mtsString f
                              | None => ""
                              end
                | _ => ""
                end in
  let req1 := if negb (String.eqb shasum "")
              then Headers ["If-None-Match";
                            GoStd.dquote +:+ "SHA256:" +:+ shasum +:+ GoStd.dquote] req
              else req in
  match Do env (DestWriter dest) req1 w with
  | Panic m => Panic m
  | Ret (Some e, d, _, w1) =>
      Ret (Some e, match d with DestWriter s => s | _ => dest end, w1)
  | Ret (None, d, _, w1) =>
      let fi := match d with DestWriter s => s | _ => dest end in
      match kind fi with
      | OsFile f =>
          let sz := offset fi in
          if negb (sz =? startSz)%nat then
            match truncErr f with
            | Some e => Ret (Some (ErrPlain e), fi, w1)
            | None => Ret (None, sink_truncate sz fi, w1)
            end
          else Ret (None, fi, w1)
      | _ => Ret (None, fi, w1)
      end
  end.

End Session.

(** ** Reading the descriptor's error *)

(** The flag of an error says exactly whether it holds messages. *)
Definition sound (e : Models.Error) : Prop :=
  Models.containsError e = bool_decide (Models.Messages e ≠ []).

(** [r'] carries every message of [r], and its error is as sound. *)
Definition extends (r r' : R) : Prop :=
  (sound (err r) → sound (err r'))
  ∧ Models.Messages (err r) `prefix_of` Models.Messages (err r').

(** The value that the last pair for key [k] in [args] gives it, if a
    pair names [k] at all: what "the last write wins" means for the
    arguments of [Params]. *)
Fixpoint last_value (k : string) (args : list string) : option string :=
  match args with
  | k' :: v :: rest =>
      match last_value k rest with
      | Some x => Some x
      | None => if String.eqb k' k then Some v else None
      end
  | _ => None
  end.

(** The transport answers its [i]-th call with a transport error, and
    nobody closes the client meanwhile. *)
Definition fails_at (env : Env) (i : nat) : Prop :=
  ∀ q, ∃ e, roundTrip env i q = mkAttempt (inr e) false.

(** The transport answers its [i]-th call with a response. *)
Definition answers_at (env : Env) (i : nat) : Prop :=
  ∀ q, ∃ rsp, outcome (roundTrip env i q) = inl rsp.

(** The transport answers its [i]-th call with a response, and nobody
    closes the client meanwhile. *)
Definition answers_quietly (env : Env) (i : nat) : Prop :=
  ∀ q, ∃ rsp, roundTrip env i q = mkAttempt (inl rsp) false.


(** The descriptor can go on the wire: it has a URL, nothing was
    recorded against it, and [http.NewRequestWithContext] accepts it. *)
Definition sendable (env : Env) (r : R) : Prop :=
  uri r ≠ None
  ∧ Models.ContainsError (err r) = false
  ∧ ∀ u, http_NewRequest env (ctx r) (method r) u = None.

(** Retry is on: neither [FailFast]/[Context] nor a default round-trip
    time-out disabled it. *)
Definition retrying (r : R) (w : World) : Prop :=
  noRetry r = false
  ∧ (RoundTripTimeout (client w) >? 0) && is_background (ctx r) = false.

(** What the loop needs of the descriptor to keep retrying: retry is
    not off, the body is absent or rewinds, and the request can be
    built. *)
Definition loop_ready (env : Env) (r : R) : Prop :=
  noRetry r = false
  ∧ (body r = BodyNone ∨ rewinds_ok (body r) = true)
  ∧ ∀ u, http_NewRequest env (ctx r) (method r) u = None.

(** The request carries no [If-None-Match] header. *)
Definition unvalidated (q : Request) : Prop :=
  reqHeader q !! "If-None-Match" = None.

(** The world in which the retry loop is left. *)
Definition exit_world (x : LoopExit) : World :=
  match x with
  | Returned _ _ w => w
  | Broke _ _ _ w => w
  end.

(** ** A concrete environment for the examples *)

Module Fixture.

Definition ok_response (code : Z) (body_ : string) : HttpResponse :=
  mkResponse code {[ "Content-Type" := ["application/json"] ]} body_ None
    (Z.of_nat (String.length body_)).

(** An environment whose standard library accepts everything and
    whose transport is [net]. *)
Definition env_of (net : nat → Request → Attempt) : Env :=
  mkEnv (String.concat "/")
        (λ _, None)
        (λ _, "")
        (λ s, s)
        (λ _ _ _, None)
        (λ _, "status")
        (λ _, "")
        (λ ct, ct)
        (λ _, inr "invalid character")
        (λ _ o, (o, None))
        (λ _ o, (o, None))
        ""
        (λ _, false)
        true
        net.

(** A transport that fails its first [k] calls and then answers
    [code]. *)
Definition flaky (k : nat) (code : Z) : nat → Request → Attempt :=
  λ i _, if (i <? k)%nat then mkAttempt (inr "connection refused") false
         else mkAttempt (inl (ok_response code "{}")) false.

(** A transport that fails every call; the client is closed by another
    goroutine during call [k]. *)
Definition closing (k : nat) : nat → Request → Attempt :=
  λ i _, mkAttempt (inr "connection reset") (i =? k)%nat.

Definition a_client : Client :=
  mkClient 0 "https://127.0.0.1:8092" "rocketskates" "r0cketsk8ts" true
    None ChanOpen false "" "" None "".

Definition a_world (c : Client) : World := mkWorld c [] [] [].

Definition a_file (f : FileOracle) : Sink := mkSink "old" 0 (OsFile f) None.

(** A client that holds a cached [Info] at heap location 0, and its
    world. *)
Definition informed_client : Client := set_info (Some 0%nat) a_client.

Definition informed_world : World :=
  mkWorld informed_client [OInfo Models.emptyInfo] [] [].

(** The [If-None-Match] values of every request that was sent. *)
Definition validators (w : World) : list (option (list string)) :=
  map (λ q, reqHeader q !! "If-None-Match") (sent w).

End Fixture.

(** ** More of the client: thin callers of the engine *)

(** More of the Go [strings] package, as the blob checksum and the
    catalog commands use it. *)
Module GoStrings.

Fixpoint trim_left (c : ascii) (s : string) : string :=
  match s with
  | EmptyString => EmptyString
  | String a rest => if Ascii.eqb a c then trim_left c rest else s
  end.

Fixpoint trim_right (c : ascii) (s : string) : string :=
  match s with
  | EmptyString => EmptyString
  | String a rest =>
      match trim_right c rest with
      | EmptyString => if Ascii.eqb a c then EmptyString else String a EmptyString
      | t => String a t
      end
  end.

(** [strings.Trim(s, cutset)] for a cutset of the one character [c]:
    every leading and every trailing [c] goes. *)
Definition Trim (s : string) (c : ascii) : string := trim_right c (trim_left c s).

(** [strings.SplitN(s, sep, 2)] for a separator of the one character
    [c]: [None] when the result has one part (no [c] in [s]), else the
    parts before and after the first [c]. *)
Fixpoint split_first (c : ascii) (s : string) : option (string * string) :=
  match s with
  | EmptyString => None
  | String a rest =>
      if Ascii.eqb a c then Some (EmptyString, rest)
      else match split_first c rest with
           | Some (before, after) => Some (String a before, after)
           | None => None
           end
  end.



End GoStrings.

(** The values that the pairs of [args] give to the header whose
    canonical name is [k], in the order of the pairs: what "appending"
    means for the arguments of [Headers]. *)
Fixpoint values_for (k : string) (args : list string) : list string :=
  match args with
  | k' :: v :: rest =>
      if String.eqb (GoStd.CanonicalMIMEHeaderKey k') k
      then v :: values_for k rest
      else values_for k rest
  | _ => []
  end.

(** The character [c] occurs in [s]. *)
Fixpoint occurs (c : ascii) (s : string) : bool :=
  match s with
  | EmptyString => false
  | String a rest => Ascii.eqb a c || occurs c rest
  end.

(** The request forbids caching and carries credentials. *)
Definition uncached_and_authorized (q : Request) : Prop :=
  "no-store" ∈ default [] (reqHeader q !! "Cache-Control")
  ∧ Header.Get "Authorization" (reqHeader q) ≠ "".

(** The request carries the trace level and the trace token. *)
Definition traced (lvl tok : string) (q : Request) : Prop :=
  lvl ∈ default [] (reqHeader q !! "X-Log-Request")
  ∧ tok ∈ default [] (reqHeader q !! "X-Log-Token").

(** The world in which a call is left, if it returns. *)
Definition world_after {A : Type} (o : Outcome (A * World)) : option World :=
  match o with
  | Ret (_, w) => Some w
  | Panic _ => None
  end.

(** [R.GetETag]. *)
Definition GetETag (r : R) : string := eTag r.

(** What [GetBlobSum] makes of the headers of the [HEAD] response: the
    vendor checksum header if it is there, else the [ETag] without its
    quotes and without what precedes its first colon. *)
Definition blobSumOf (h : gmap string (list string)) : string :=
  let sum := Header.Get "X-DRP-SHA256SUM" h in
  if String.eqb sum "" then
    let sum1 := GoStrings.Trim (Header.Get "ETag" h) (ascii_of_nat 34) in
    match GoStrings.split_first ":" sum1 with
    | Some (_, after) => after
    | None => sum1
    end
  else sum.

Section Callers.

Context (env : Env).

(** [Client.ExistsModel]: a [HEAD] for the object; a [*models.Error]
    with code 404 means "no", without error. *)
Definition ExistsModel (prefix key : string) (w : World)
  : Outcome (bool * option GoError * World) :=
  match Do env DestNil (UrlFor env (client w) [prefix; key] (Head (Req (client w)))) w with
  | Panic m => Panic m
  | Ret (e, _, _, w1) =>
      match e with
      | Some (ErrModel me) =>
          if (Models.Code me =? 404)%Z then Ret (false, None, w1)
          else Ret (false, e, w1)
      | Some _ => Ret (false, e, w1)
      | None => Ret (true, None, w1)
      end
  end.

(** [Client.PostBlobExplode]: the [res] it returns (read before or
    after the call, as [late_operand_read] says), the error, and the
    world.  [res] lives at a fresh heap location. *)
Definition PostBlobExplode (blob : BodyArg) (explode : bool) (at_ : list string)
    (w : World) : Outcome (Obj * option GoError * World) :=
  let l := length (objs w) in
  let w0 := set_objs (objs w ++ [OOther ""])%list w in
  let r := UrlFor env (client w) [path_Join env ["/"; path_Join env at_]]
             (Post blob (Req (client w))) in
  let r1 := if explode then Params ["explode"; "true"] r else r in
  match Do env (DestPtr l) r1 w0 with
  | Panic m => Panic m
  | Ret (e, _, _, w1) =>
      Ret (if late_operand_read env then load (DestPtr l) w1 else OOther "", e, w1)
  end.

(** [Client.PostBlob]. *)
Definition PostBlob (blob : BodyArg) (at_ : list string) (w : World)
  : Outcome (Obj * option GoError * World) :=
  PostBlobExplode blob false at_ w.

(** [R.Fill]; [l] is where the model [m] lives. *)
Definition Fill (m : ModelRef) (l : nat) (r : R) (w : World)
  : Outcome (option GoError * R * World) :=
  let r1 := set_err (Models.set_Model (MKey m)
                       (Models.set_Model (Prefix m) (err r))) r in
  if String.eqb (MKey m) "" then
    let r2 := r_Errorf ("Cannot Fill " +:+ Prefix m +:+ " with an empty key") r1 in
    Ret (Some (ErrModel (err r2)), r2, w)
  else
    match Do env (DestPtr l) (UrlForM env (client w) m [] (Get r1)) w with
    | Panic msg => Panic msg
    | Ret (e, _, r2, w1) => Ret (e, r2, w1)
    end.

(** [R.Delete]; [l] is where the model [m] lives. *)
Definition Delete (m : ModelRef) (l : nat) (r : R) (w : World)
  : Outcome (option GoError * R * World) :=
  let r1 := set_err (Models.set_Model (MKey m)
                       (Models.set_Model (Prefix m) (err r))) r in
  if String.eqb (MKey m) "" then
    let r2 := r_Errorf ("Cannot Delete " +:+ Prefix m +:+ " with an empty key") r1 in
    Ret (Some (ErrModel (err r2)), r2, w)
  else
    match Do env (DestPtr l) (UrlForM env (client w) m [] (Del r1)) w with
    | Panic msg => Panic msg
    | Ret (e, _, r2, w1) => Ret (e, r2, w1)
    end.

(** [R.PatchToFull]: where the model it returns lives, and the error.
    [old_l] is where [old] lives; [models.Clone(old)] is a copy of it
    at a fresh location, which the answer is decoded into. *)
Definition PatchToFull (old : ModelRef) (old_l : nat) (new : ModelRef)
    (gen : bool → GenResult) (paranoid_ : bool) (r : R) (w : World)
  : Outcome (nat * option GoError * World) :=
  let l := length (objs w) in
  let w0 := set_objs (objs w ++ [load (DestPtr old_l) w])%list w in
  let r1 := if paranoid_ then ParanoidPatch r else r in
  match Do env (DestPtr l) (PatchTo env (client w) old new gen r1) w0 with
  | Panic m => Panic m
  | Ret (Some e, _, _, w1) => Ret (old_l, Some e, w1)
  | Ret (None, _, _, w1) => Ret (l, None, w1)
  end.

End Callers.

(** ** The catalog commands *)

Module Catalog.

(** [models.CatalogItem], by the fields that the catalog commands
    read (the type is declared in package [models]). *)
Record CatalogItem := mkItem {
  Name : string;
  Version : string;
  ContentType : string;
  Source : string;
  Shasum256 : gmap string string
}.

Section Items.

(** The raw entries of the [catalog_items] section, and what
    [models.Remarshal] makes of one: an item, or nothing on error. *)
Context {Raw : Type} (remarshal : Raw → option CatalogItem).

(** [itemsFromCatalog]; [section] is [cat.Sections["catalog_items"]],
    empty when the catalog has no such section. *)
Definition itemsFromCatalog (section : gmap string Raw) (name : string)
  : gmap string CatalogItem :=
  map_fold (λ k v res,
              match remarshal v with
              | None => res
              | Some item =>
                  if String.eqb name "" || String.eqb name (Name item)
                  then <[k := item]> res
                  else res
              end) ∅ section.

(** The loop of [oneItem] over the items in the order [order]. *)
Fixpoint firstWithVersion (order : list (string * CatalogItem)) (version : string)
  : option CatalogItem :=
  match order with
  | [] => None
  | (_, v) :: rest =>
      if String.eqb (Version v) version then Some v
      else firstWithVersion rest version
  end.

(** [oneItem]; [range] is the order in which [for ... range] visits a
    map, which Go leaves open. *)
Definition oneItem (range : gmap string CatalogItem → list (string * CatalogItem))
    (section : gmap string Raw) (name version : string) : option CatalogItem :=
  firstWithVersion (range (itemsFromCatalog section name)) version.

End Items.

(** The rows of the tables that the [items] and [item show] commands
    print. *)
Record catItem := mkCat {
  Type_ : string;
  Versions : list string
}.

Section Tables.

(** What [models.Remarshal] makes of an item that [itemsFromCatalog]
    returned, when the command marshals it once more. *)
Context (again : CatalogItem → option CatalogItem).

(** The body of the loop that fills [items]: the first item of a name
    gives the row its type, every item adds its version. *)
Definition addVersion (items : gmap string catItem) (v : CatalogItem)
  : gmap string catItem :=
  match again v with
  | None => items
  | Some item =>
      match items !! Name item with
      | None => <[Name item := mkCat (ContentType item) [Version item]]> items
      | Some cat =>
          <[Name item := mkCat (Type_ cat) (Versions cat ++ [Version item])]> items
      end
  end.

(** The loop, over the items in the order [order]. *)
Definition collect (order : list (string * CatalogItem)) : gmap string catItem :=
  fold_left (λ items kv, addVersion items kv.2) order ∅.

(** [for k := range items { sort.Strings(items[k].Versions) }]:
    [sort.Strings] puts the strings in increasing order, compared byte
    by byte; there is one such arrangement of a list, whatever the
    algorithm. *)
Definition sortVersions (items : gmap string catItem) : gmap string catItem :=
  (λ cat, mkCat (Type_ cat) (merge_sort String.le (Versions cat))) <$> items.

(** What the [items] command prints, for the catalog's items [found]. *)
Definition itemsTable (range : gmap string CatalogItem → list (string * CatalogItem))
    (found : gmap string CatalogItem) : gmap string catItem :=
  sortVersions (collect (range found)).

(** What [item show name] prints for the items [found] of that name:
    an error on an empty table, else [items[name]], the zero row when
    the table has no such key. *)
Definition showItem (range : gmap string CatalogItem → list (string * CatalogItem))
    (found : gmap string CatalogItem) (name : string) : string + catItem :=
  let items := collect (range found) in
  if (size items =? 0)%nat
  then inl ("No item named " +:+ name +:+ " in the catalog")
  else inr (default (mkCat "" []) (sortVersions items !! name)).

(** The versions of the items named [n], in the order [order]. *)
Fixpoint versions_of (n : string) (order : list (string * CatalogItem))
  : list string :=
  match order with
  | [] => []
  | (_, v) :: rest =>
      match again v with
      | Some item =>
          if String.eqb (Name item) n
          then Version item :: versions_of n rest
          else versions_of n rest
      | None => versions_of n rest
      end
  end.

End Tables.


End Catalog.

(** ** More examples *)

Module Sample.

(** A response with the given status and body, and no content type. *)
Definition plain (code : Z) (body_ : string) : HttpResponse :=
  mkResponse code ∅ body_ None (Z.of_nat (String.length body_)).

(** A transport that answers every call with [rsp]. *)
Definition always (rsp : HttpResponse) : nat → Request → Attempt :=
  λ _ _, mkAttempt (inl rsp) false.

Definition closed_client : Client :=
  set_info None (set_closed true (set_closer ChanClosed Fixture.a_client)).

Definition a_machine : ModelRef := mkModelRef "machines" "" "*models.Machine".

Definition drpcli_item : Catalog.CatalogItem :=
  Catalog.mkItem "drpcli" "v4.2.0" "DRPCLI"
    "https://rebar-catalog.s3.amazonaws.com/rebar-catalog/drpcli/v4.2.0"
    {[ "amd64/linux" := "0123" ]}.

Definition task_item : Catalog.CatalogItem :=
  Catalog.mkItem "task-library" "v4.2.0" "ContentPackage"
    "https://rebar-catalog.s3.amazonaws.com/rebar-catalog/task-library/v4.2.0.json"
    ∅.

Definition a_section : gmap string (option Catalog.CatalogItem) :=
  {[ "drpcli-v4.2.0" := Some drpcli_item;
     "task-library-v4.2.0" := Some task_item;
     "broken" := None ]}.

End Sample.

(** * Properties *)

(** ** Lists taken two elements at a time *)

Lemma pair_ind {A} (P : list A → Prop) :
  P [] → (∀ x, P [x]) → (∀ x y l, P l → P (x :: y :: l)) → ∀ l, P l.
Proof.
  intros H0 H1 H2. fix IH 1. intros [|x [|y l]].
  - exact H0.
  - apply H1.
  - apply H2, IH.
Qed.

Lemma setPairs_lookup (args : list string) :
  ∀ (m : gmap string (list string)) (k : string),
    setPairs args m !! k =
      match last_value k args with
      | Some v => Some [v]
      | None => m !! k
      end.
Proof.
  induction args as [|x|x y l IH] using pair_ind; intros m k; simpl; try done.
  rewrite IH. destruct (last_value k l) as [v|]; [done|].
  unfold Values.Set_. destruct (String.eqb_spec x k) as [->|Hne].
  - by rewrite lookup_insert_eq.
  - by rewrite lookup_insert_ne.
Qed.

(** ** Query parameters *)

(** C6: [Params("a","1","a","2")] leaves exactly the one value ["2"]
    under key ["a"] and records no error; a later [Params] call for a
    key replaces what an earlier one set; and for every argument list
    of even length each key ends up with the single value of its last
    pair (an odd list changes no parameter). *)
Theorem Params_last_write_wins (r : R) :
  params (Params ["a"; "1"; "a"; "2"] r) !! "a" = Some ["2"]
  ∧ err (Params ["a"; "1"; "a"; "2"] r) = err r
  ∧ (∀ k v1 v2 : string,
        params (Params [k; v2] (Params [k; v1] r)) !! k = Some [v2])
  ∧ (∀ (args : list string) (k : string),
        params (Params args r) !! k =
          if odd_len args then params r !! k
          else match last_value k args with
               | Some v => Some [v]
               | None => params r !! k
               end).
Proof.
  repeat split.
  - unfold Params. cbn [odd_len]. simpl. unfold Values.Set_.
    by rewrite lookup_insert_eq.
  - intros k v1 v2. unfold Params. simpl. unfold Values.Set_.
    by rewrite lookup_insert_eq.
  - intros args k. unfold Params. destruct (odd_len args); simpl; [done|].
    apply setPairs_lookup.
Qed.

(** ** Closing the client *)

(** C9: a [Close] that returned leaves the signal channel closed and
    the client marked closed, and a second [Close] on that client does
    not return: it panics on the closed channel. *)
Theorem Close_twice_panics (c c' : Client) :
  Close c = Ret c' →
  closed c' = true
  ∧ closer c' = ChanClosed
  ∧ Close c' = Panic "close of closed channel".
Proof.
  unfold Close. destruct (closer c) eqn:Hc; intros H; try discriminate.
  injection H as <-. by simpl.
Qed.

Lemma Close_twice_panics_witness :
  Close Fixture.a_client
    = Ret (set_info None (set_closed true (set_closer ChanClosed Fixture.a_client)))
  ∧ Close (set_info None (set_closed true (set_closer ChanClosed Fixture.a_client)))
    = Panic "close of closed channel".
Proof.
  split; [reflexivity|].
  apply (Close_twice_panics Fixture.a_client). reflexivity.
Defined.

(** ** Failing closed *)

Lemma sound_Errorf (msg : string) (e : Models.Error) : sound (Models.Errorf msg e).
Proof.
  unfold sound. simpl. symmetry. apply bool_decide_eq_true.
  by destruct (Models.Messages e).
Qed.

Lemma extends_refl (r : R) : extends r r.
Proof. by split. Qed.

Lemma extends_trans (r1 r2 r3 : R) : extends r1 r2 → extends r2 r3 → extends r1 r3.
Proof.
  intros [S1 P1] [S2 P2]. split; [tauto|]. by etrans.
Qed.

Lemma extends_same_err (r r' : R) : err r' = err r → extends r r'.
Proof. intros H. unfold extends. by rewrite H. Qed.

Lemma extends_Errorf (msg : string) (r : R) : extends r (r_Errorf msg r).
Proof.
  split; [intros _; apply sound_Errorf|]. simpl. by apply prefix_app_r.
Qed.

Lemma extends_AddError (e : option string) (r : R) : extends r (r_AddError e r).
Proof.
  destruct e as [msg|]; [apply extends_Errorf|].
  unfold r_AddError. simpl. by destruct r.
Qed.

Lemma extends_relabel (m k : string) (r : R) :
  extends r (set_err (Models.set_Key k (Models.set_Model m (err r))) r).
Proof. by split. Qed.

Lemma extends_Headers (args : list string) (r : R) : extends r (Headers args r).
Proof.
  unfold Headers. destruct (odd_len args); [apply extends_Errorf|].
  by apply extends_same_err.
Qed.

Lemma extends_Params (args : list string) (r : R) : extends r (Params args r).
Proof.
  unfold Params. destruct (odd_len args); [apply extends_Errorf|].
  by apply extends_same_err.
Qed.

Lemma extends_Body (b : BodyArg) (r : R) : extends r (Body b r).
Proof.
  destruct b as [| | | |[buf|e]]; simpl; try by apply extends_same_err.
  unfold r_AddError, r_Errorf. simpl. apply (extends_Errorf e r).
Qed.

Lemma extends_PatchObj (gen : bool → GenResult) (r : R) : extends r (PatchObj gen r).
Proof.
  unfold PatchObj. destruct (gen (paranoid r)) as [e|m].
  - apply extends_AddError.
  - eapply extends_trans; [|apply extends_Body]. by apply extends_same_err.
Qed.

Lemma extends_UrlFor (env : Env) (c : Client) (args : list string) (r : R) :
  extends r (UrlFor env c args r).
Proof.
  unfold UrlFor. destruct (UrlForProxy env c (proxy r) args).
  - by apply extends_same_err.
  - apply extends_AddError.
Qed.

Lemma extends_UrlForM (env : Env) (c : Client) (m : ModelRef) (rest : list string)
    (r : R) :
  extends r (UrlForM env c m rest r).
Proof.
  unfold UrlForM. eapply extends_trans; [apply extends_relabel|apply extends_UrlFor].
Qed.

Lemma extends_Filter (env : Env) (c : Client) (prefix : string)
    (filterArgs : list string) (r : R) :
  extends r (Filter env c prefix filterArgs r).
Proof.
  unfold Filter.
  assert (extends r (UrlFor env c [prefix] (Get r))) as H.
  { eapply extends_trans; [|apply extends_UrlFor]. by apply extends_same_err. }
  destruct (compileFilter filterArgs []); (eapply extends_trans; [exact H|]).
  - apply extends_Errorf.
  - apply extends_Params.
Qed.

Lemma extends_step (env : Env) (c : Client) (s : Step) (r : R) :
  extends r (step env c s r).
Proof.
  destruct s; simpl;
    try (by apply extends_same_err);
    try (eapply extends_trans; [|apply extends_Body]; by apply extends_same_err).
  - unfold List_. eapply extends_trans; [|apply extends_UrlFor].
    by apply extends_same_err.
  - apply extends_PatchObj.
  - unfold PatchTo. case_match.
    + eapply extends_trans; [apply extends_relabel|apply extends_Errorf].
    + eapply extends_trans; [apply extends_PatchObj|apply extends_UrlForM].
  - apply extends_UrlFor.
  - apply extends_UrlForM.
  - apply extends_Params.
  - apply extends_Filter.
  - apply extends_Headers.
Qed.

Lemma extends_chain (env : Env) (c : Client) (steps : list Step) :
  ∀ r, extends r (chain env c steps r).
Proof.
  induction steps as [|s steps IH]; intros r; simpl; [apply extends_refl|].
  eapply extends_trans; [apply extends_step|apply IH].
Qed.

(** Whoever holds a message holds the flag. *)
Lemma sound_flag (e : Models.Error) (m : string) :
  sound e → m ∈ Models.Messages e → Models.ContainsError e = true.
Proof.
  unfold sound, Models.ContainsError. intros -> Hm.
  apply bool_decide_eq_true. intros Hnil. rewrite Hnil in Hm.
  by apply not_elem_of_nil in Hm.
Qed.

(** [Response] on a descriptor that holds an error: the error comes
    back, with every recorded message, and the world is as it was. *)
Lemma Response_fail_closed (env : Env) (r : R) (w : World) :
  Models.ContainsError (err r) = true →
  ∃ e r', Response env r w = Ret (None, Some e, r', w)
          ∧ Models.Messages (err r) `prefix_of` Models.Messages e.
Proof.
  intros Hc. unfold Response. destruct (uri r) as [u|].
  - set (r1 := if _ : bool then _ else r).
    assert (err r1 = err r) as Hr1 by (subst r1; by case_match).
    set (r2 := set_uri _ r1).
    assert (err r2 = err r) as Hr2 by done.
    clearbody r2. clear Hr1. clearbody r1.
    destruct (closed (client w)).
    + eexists _, _. split; [reflexivity|].
      unfold r_Errorf, Models.Errorf. cbn [err set_err Models.Messages].
      rewrite Hr2. by apply prefix_app_r.
    + rewrite Hr2, Hc. by eexists _, _.
  - eexists _, _. split; [reflexivity|].
    unfold r_Errorf, Models.Errorf. cbn [err set_err Models.Messages].
    by apply prefix_app_r.
Qed.

Lemma err_accept_headers (val : Dest) (r : R) : err (accept_headers val r) = err r.
Proof. by destruct val. Qed.

Lemma uri_accept_headers (val : Dest) (r : R) : uri (accept_headers val r) = uri r.
Proof. by destruct val. Qed.

Lemma Do_fail_closed (env : Env) (val : Dest) (r : R) (w : World) :
  Models.ContainsError (err r) = true →
  ∃ e r', Do env val r w = Ret (Some (ErrModel e), val, r', w)
          ∧ Models.Messages (err r) `prefix_of` Models.Messages e.
Proof.
  intros Hc. unfold Do.
  destruct (Response_fail_closed env (accept_headers val r) w) as (e & r' & -> & Hp).
  { by rewrite err_accept_headers. }
  rewrite err_accept_headers in Hp. by eexists _, _.
Qed.

(** C1: whatever chain of builder calls made the descriptor, a message
    that some step of the chain recorded is among the messages of the
    error that [Response] and [Do] return, and executing changes
    nothing in the world: nothing is sent, nothing slept, no object
    written. *)
Theorem builder_error_fails_closed (env : Env) (c : Client)
    (before after : list Step) (m : string) (w : World) (val : Dest) :
  m ∈ Models.Messages (err (chain env c before (Req c))) →
  (∃ e r', Response env (chain env c (before ++ after) (Req c)) w
             = Ret (None, Some e, r', w)
           ∧ m ∈ Models.Messages e)
  ∧ (∃ e r', Do env val (chain env c (before ++ after) (Req c)) w
               = Ret (Some (ErrModel e), val, r', w)
             ∧ m ∈ Models.Messages e).
Proof.
  intros Hm.
  set (r := chain env c (before ++ after) (Req c)).
  assert (extends (chain env c before (Req c)) r) as [_ Hp].
  { subst r. unfold chain. rewrite fold_left_app. apply extends_chain. }
  assert (m ∈ Models.Messages (err r)) as Hr.
  { destruct Hp as [l ->]. apply elem_of_app. by left. }
  assert (Models.ContainsError (err r) = true) as Hc.
  { apply (sound_flag _ m); [|done].
    by apply (extends_chain env c (before ++ after) (Req c)). }
  split.
  - destruct (Response_fail_closed env r w Hc) as (e & r' & He & [l Hl]).
    exists e, r'. split; [done|]. rewrite Hl. apply elem_of_app. by left.
  - destruct (Do_fail_closed env val r w Hc) as (e & r' & He & [l Hl]).
    exists e, r'. split; [done|]. rewrite Hl. apply elem_of_app. by left.
Qed.

Lemma builder_error_fails_closed_witness :
  "Params was not passed an even number of arguments"
    ∈ Models.Messages
        (err (chain (Fixture.env_of (Fixture.flaky 0 200)) Fixture.a_client
                [SParams ["explode"]] (Req Fixture.a_client)))
  ∧ ∃ e r',
      Do (Fixture.env_of (Fixture.flaky 0 200)) DestNil
         (chain (Fixture.env_of (Fixture.flaky 0 200)) Fixture.a_client
            ([SParams ["explode"]] ++ [SUrlFor ["machines"]; SPost ArgNil])
            (Req Fixture.a_client))
         (Fixture.a_world Fixture.a_client)
      = Ret (Some (ErrModel e), DestNil, r', Fixture.a_world Fixture.a_client)
      ∧ "Params was not passed an even number of arguments" ∈ Models.Messages e.
Proof.
  assert ("Params was not passed an even number of arguments"
            ∈ Models.Messages
                (err (chain (Fixture.env_of (Fixture.flaky 0 200)) Fixture.a_client
                        [SParams ["explode"]] (Req Fixture.a_client)))) as H.
  { simpl. apply list_elem_of_here. }
  split; [exact H|].
  exact (proj2 (builder_error_fails_closed _ _ _ _ _ _ _ H)).
Defined.

(** ** Filters *)

(** C7: on a client whose endpoint yields a well-formed URL for
    [machines], [Filter("machines","sort","Name","limit","5","Stage","Eq","complete")]
    on a fresh descriptor records nothing and leaves exactly the three
    parameters [sort=Name], [limit=5], [Stage=Eq(complete)]; with the
    unknown operator of [Filter("machines","Stage","Bogus","x")] the
    descriptor holds a validation error, no parameter is set, and [Do]
    returns that error with the world untouched. *)
Theorem Filter_compiles_query (env : Env) (c : Client) (u : URL) (w : World)
    (val : Dest) :
  UrlForProxy env c (urlProxy c) ["machines"] = inl u →
  (Models.Messages
     (err (Filter env c "machines"
             ["sort"; "Name"; "limit"; "5"; "Stage"; "Eq"; "complete"] (Req c))) = []
   ∧ Models.ContainsError
       (err (Filter env c "machines"
               ["sort"; "Name"; "limit"; "5"; "Stage"; "Eq"; "complete"] (Req c))) = false
   ∧ params (Filter env c "machines"
               ["sort"; "Name"; "limit"; "5"; "Stage"; "Eq"; "complete"] (Req c))
     = <["Stage" := ["Eq(complete)"]]>
         (<["limit" := ["5"]]> (<["sort" := ["Name"]]> ∅)))
  ∧ (Models.Messages (err (Filter env c "machines" ["Stage"; "Bogus"; "x"] (Req c)))
     = ["Invalid Filter Stage: unknown op Bogus"]
     ∧ params (Filter env c "machines" ["Stage"; "Bogus"; "x"] (Req c)) = ∅
     ∧ ∃ e r',
         Do env val (Filter env c "machines" ["Stage"; "Bogus"; "x"] (Req c)) w
         = Ret (Some (ErrModel e), val, r', w)
         ∧ "Invalid Filter Stage: unknown op Bogus" ∈ Models.Messages e).
Proof.
  intros Hu.
  assert (UrlFor env c ["machines"] (Get (Req c)) = set_uri (Some u) (Get (Req c)))
    as Hr1.
  { unfold UrlFor. cbn [proxy Get Meth set_method Req]. by rewrite Hu. }
  split.
  - unfold Filter. rewrite Hr1.
    change (compileFilter ["sort"; "Name"; "limit"; "5"; "Stage"; "Eq"; "complete"] [])
      with (FilterOk ["sort"; "Name"; "limit"; "5"; "Stage"; "Eq(complete)"]).
    cbv beta iota. done.
  - unfold Filter. rewrite Hr1.
    change (compileFilter ["Stage"; "Bogus"; "x"] [])
      with (FilterErr "Invalid Filter Stage: unknown op Bogus").
    cbv beta iota. split; [done|]. split; [done|].
    set (r := r_Errorf _ _).
    destruct (Do_fail_closed env val r w) as (e & r' & He & [l Hl]); [done|].
    exists e, r'. split; [done|]. rewrite Hl. apply elem_of_app. left.
    apply list_elem_of_here.
Qed.

Lemma Filter_compiles_query_witness :
  UrlForProxy (Fixture.env_of (Fixture.flaky 0 200)) Fixture.a_client
    (urlProxy Fixture.a_client) ["machines"]
  = inl (mkURL "https://127.0.0.1:8092/api/v3/machines" "")
  ∧ params (Filter (Fixture.env_of (Fixture.flaky 0 200)) Fixture.a_client "machines"
              ["sort"; "Name"; "limit"; "5"; "Stage"; "Eq"; "complete"]
              (Req Fixture.a_client))
    = <["Stage" := ["Eq(complete)"]]>
        (<["limit" := ["5"]]> (<["sort" := ["Name"]]> ∅)).
Proof.
  split; [reflexivity|].
  apply (Filter_compiles_query (Fixture.env_of (Fixture.flaky 0 200))
           Fixture.a_client (mkURL "https://127.0.0.1:8092/api/v3/machines" "")
           (Fixture.a_world Fixture.a_client) DestNil).
  reflexivity.
Defined.

(** ** Round trips on a closed client *)

Lemma Response_closed (env : Env) (r : R) (w : World) :
  closed (client w) = true →
  uri r ≠ None →
  ∃ r', Response env r w = Ret (None, Some (err r'), r', w)
        ∧ Models.Messages (err r')
          = (Models.Messages (err r) ++ ["Connection Closed"])%list.
Proof.
  intros Hc Hu. unfold Response. destruct (uri r) as [u|]; [|done].
  rewrite Hc.
  set (r1 := if _ : bool then _ else r).
  assert (err r1 = err r) as Hr1 by (subst r1; by case_match).
  eexists. split; [reflexivity|].
  unfold r_Errorf, Models.Errorf. cbn [err set_err set_uri Models.Messages].
  by rewrite Hr1.
Qed.

(** C2, as the code has it: once [Close] has returned, [Response] and
    [Do] on a descriptor that has a URL return at once the
    descriptor's error, whose last message is "Connection Closed", and
    leave the world as it was: nothing is sent. *)
Theorem closed_client_refuses_round_trips (env : Env) (c c' : Client) (w : World)
    (r : R) (val : Dest) :
  Close c = Ret c' →
  client w = c' →
  uri r ≠ None →
  (∃ e r', Response env r w = Ret (None, Some e, r', w)
           ∧ last (Models.Messages e) = Some "Connection Closed")
  ∧ (∃ e r', Do env val r w = Ret (Some (ErrModel e), val, r', w)
             ∧ last (Models.Messages e) = Some "Connection Closed").
Proof.
  intros HC Hw Hu.
  assert (closed (client w) = true) as Hc.
  { rewrite Hw. unfold Close in HC. destruct (closer c); try discriminate.
    by injection HC as <-. }
  split.
  - destruct (Response_closed env r w Hc Hu) as (r' & -> & Hm).
    exists (err r'), r'. split; [done|]. rewrite Hm. apply last_snoc.
  - unfold Do.
    destruct (Response_closed env (accept_headers val r) w Hc) as (r' & -> & Hm).
    { by rewrite uri_accept_headers. }
    exists (err r'), r'. split; [done|]. rewrite Hm. apply last_snoc.
Qed.

Lemma closed_client_refuses_round_trips_witness :
  ∃ e r',
    Response (Fixture.env_of (Fixture.flaky 0 200))
      (UrlFor (Fixture.env_of (Fixture.flaky 0 200)) Fixture.a_client ["machines"]
         (Req Fixture.a_client))
      (Fixture.a_world
         (set_info None (set_closed true (set_closer ChanClosed Fixture.a_client))))
    = Ret (None, Some e, r',
           Fixture.a_world
             (set_info None (set_closed true (set_closer ChanClosed Fixture.a_client))))
    ∧ last (Models.Messages e) = Some "Connection Closed".
Proof.
  refine (proj1 (closed_client_refuses_round_trips
                   (Fixture.env_of (Fixture.flaky 0 200)) Fixture.a_client _ _ _
                   DestNil _ _ _)).
  - reflexivity.
  - reflexivity.
  - discriminate.
Defined.

(** C2 as worded fails on a descriptor without a URL: on a client
    that [Close] has closed, [Response] answers "No URL to talk to",
    and "Connection Closed" is not among the messages. *)
Lemma closed_client_without_url_counterexample :
  Close Fixture.a_client
    = Ret (set_info None (set_closed true (set_closer ChanClosed Fixture.a_client)))
  ∧ ∃ e r',
      Response (Fixture.env_of (Fixture.flaky 0 200))
        (Req (set_info None (set_closed true (set_closer ChanClosed Fixture.a_client))))
        (Fixture.a_world
           (set_info None (set_closed true (set_closer ChanClosed Fixture.a_client))))
      = Ret (None, Some e, r',
             Fixture.a_world
               (set_info None (set_closed true (set_closer ChanClosed Fixture.a_client))))
      ∧ Models.Messages e = ["No URL to talk to"]
      ∧ "Connection Closed" ∉ Models.Messages e.
Proof.
  split; [reflexivity|]. eexists _, _. split; [reflexivity|]. split; [reflexivity|].
  simpl. intros H. apply list_elem_of_singleton in H. discriminate.
Qed.

(** ** The retry loop *)

Section RetryLoop.

Context (env : Env).

(** One failed attempt of a descriptor that can retry: the request
    is logged, the wait is slept, and the loop goes on.  The cached
    [Info] is dropped on the way when the descriptor has no body, and
    only then. *)
Lemma retryLoop_failed_attempt (waitFor : Z) (rest : list Z) (u : URL)
    (resp0 : option HttpResponse) (err0 : option string) (r : R) (w : World) :
  loop_ready env r →
  closed (client w) = false →
  fails_at env (length (sent w)) →
  ∃ e r1 w1,
    retryLoop env (waitFor :: rest) u resp0 err0 r w
    = retryLoop env rest u None (Some e) r1 w1
    ∧ loop_ready env r1 ∧ err r1 = err r
    ∧ closed (client w1) = false
    ∧ length (sent w1) = S (length (sent w))
    ∧ slept w1 = (slept w ++ [waitFor])%list
    ∧ objs w1 = objs w
    ∧ client w1 = match body r with
                  | BodyNone => set_info None (client w)
                  | _ => client w
                  end.
Proof.
  intros (Hn & Hb & Hq) Hc Hf. cbn [retryLoop]. rewrite Hq.
  set (h := Authorize env (client w) (header r)).
  set (req := mkRequest (ctx r) (method r) u h (body r)).
  destruct (Hf req) as [e He]. rewrite He.
  cbn [err_of resp_of outcome interfere closedMeanwhile].
  cbn [noRetry set_Req set_header body]. rewrite Hn.
  cbn [orb]. rewrite bool_decide_eq_false_2 by done.
  exists e. destruct Hb as [Hb|Hb].
  - rewrite Hb. cbn [client set_client log_sent]. rewrite Hc.
    eexists _, _. split; [reflexivity|].
    split; [split; [done|split; [by left|done]]|].
    cbn. by rewrite length_app, Nat.add_1_r.
  - destruct (body r) eqn:Hbody; try discriminate; cbn [is_seeker rewinds_ok negb];
      cbn in Hb; try rewrite Hb; cbn [negb client set_client log_sent]; rewrite Hc;
      (eexists _, _; split; [reflexivity|];
       split; [split; [done|split; [right; cbn; by rewrite Hbody|done]]|];
       cbn; by rewrite length_app, Nat.add_1_r).
Qed.

(** The attempt that gets an answer ends the loop with it. *)
Lemma retryLoop_answered (waitFor : Z) (rest : list Z) (u : URL)
    (resp0 : option HttpResponse) (err0 : option string) (r : R) (w : World) :
  (∀ u, http_NewRequest env (ctx r) (method r) u = None) →
  answers_at env (length (sent w)) →
  ∃ rsp q r1 w1,
    retryLoop env (waitFor :: rest) u resp0 err0 r w = Broke (Some rsp) None r1 w1
    ∧ err r1 = err r
    ∧ sent w1 = (sent w ++ [q])%list
    ∧ outcome (roundTrip env (length (sent w)) q) = inl rsp
    ∧ slept w1 = slept w
    ∧ objs w1 = objs w.
Proof.
  intros Hq Ha. cbn [retryLoop]. rewrite Hq.
  set (h := Authorize env (client w) (header r)).
  set (req := mkRequest (ctx r) (method r) u h (body r)).
  destruct (Ha req) as [rsp Hrsp].
  unfold err_of, resp_of. rewrite Hrsp.
  rewrite bool_decide_eq_true_2 by done. cbn [orb].
  by eexists rsp, req, _, _.
Qed.

(** [k] failures and then an answer, within the schedule [ts]. *)
Lemma retryLoop_recovers (k : nat) :
  ∀ (ts : list Z) (u : URL) (resp0 : option HttpResponse) (err0 : option string)
    (r : R) (w : World),
    (k < length ts)%nat →
    loop_ready env r →
    closed (client w) = false →
    (∀ i, (i < k)%nat → fails_at env (length (sent w) + i)) →
    answers_at env (length (sent w) + k) →
    ∃ rsp q r1 w1,
      retryLoop env ts u resp0 err0 r w = Broke (Some rsp) None r1 w1
      ∧ err r1 = err r
      ∧ last (sent w1) = Some q
      ∧ outcome (roundTrip env (length (sent w) + k) q) = inl rsp
      ∧ length (sent w1) = (length (sent w) + k + 1)%nat
      ∧ slept w1 = (slept w ++ take k ts)%list
      ∧ objs w1 = objs w.
Proof.
  induction k as [|k IH]; intros ts u resp0 err0 r w Hlen Hr Hc Hf Ha.
  - destruct ts as [|waitFor rest]; [simpl in Hlen; lia|].
    rewrite Nat.add_0_r in Ha.
    destruct (retryLoop_answered waitFor rest u resp0 err0 r w)
      as (rsp & q & r1 & w1 & -> & He & Hs & Ho & Hsl & Hob);
      [apply Hr|done|].
    exists rsp, q, r1, w1. rewrite Nat.add_0_r, Hs, last_snoc, length_app.
    cbn [take length]. rewrite app_nil_r. done.
  - destruct ts as [|waitFor rest]; [simpl in Hlen; lia|].
    destruct (retryLoop_failed_attempt waitFor rest u resp0 err0 r w)
      as (e & r1 & w1 & -> & Hr1 & He & Hc1 & Hs & Hsl & Hob & _); [done|done| |].
    { specialize (Hf 0%nat). rewrite Nat.add_0_r in Hf. apply Hf. lia. }
    destruct (IH rest u None (Some e) r1 w1)
      as (rsp & q & r2 & w2 & -> & He2 & Hl & Ho & Hs2 & Hsl2 & Hob2).
    + simpl in Hlen. lia.
    + done.
    + done.
    + intros i Hi. rewrite Hs. replace (S (length (sent w)) + i)%nat
        with (length (sent w) + S i)%nat by lia. apply Hf. lia.
    + rewrite Hs. by replace (S (length (sent w)) + k)%nat
        with (length (sent w) + S k)%nat by lia.
    + exists rsp, q, r2, w2. split; [done|]. split; [congruence|].
      split; [done|]. split.
      { rewrite Hs in Ho. by replace (length (sent w) + S k)%nat
          with (S (length (sent w)) + k)%nat by lia. }
      split; [lia|]. split; [|congruence].
      rewrite Hsl2, Hsl. cbn [take]. by rewrite <- app_assoc.
Qed.

(** Every attempt of the schedule fails: the loop runs out after
    sleeping every wait. *)
Lemma retryLoop_runs_out (ts : list Z) :
  ∀ (u : URL) (e0 : string) (r : R) (w : World),
    loop_ready env r →
    closed (client w) = false →
    (∀ i, (i < length ts)%nat → fails_at env (length (sent w) + i)) →
    ∃ e r1 w1,
      retryLoop env ts u None (Some e0) r w = Broke None (Some e) r1 w1
      ∧ err r1 = err r
      ∧ length (sent w1) = (length (sent w) + length ts)%nat
      ∧ slept w1 = (slept w ++ ts)%list
      ∧ objs w1 = objs w.
Proof.
  induction ts as [|waitFor rest IH]; intros u e0 r w Hr Hc Hf.
  - exists e0, r, w. cbn. by rewrite Nat.add_0_r, app_nil_r.
  - destruct (retryLoop_failed_attempt waitFor rest u None (Some e0) r w)
      as (e & r1 & w1 & -> & Hr1 & He & Hc1 & Hs & Hsl & Hob & _); [done|done| |].
    { specialize (Hf 0%nat). rewrite Nat.add_0_r in Hf. apply Hf. simpl. lia. }
    destruct (IH u e r1 w1) as (e2 & r2 & w2 & -> & He2 & Hs2 & Hsl2 & Hob2);
      [done|done| |].
    { intros i Hi. rewrite Hs. replace (S (length (sent w)) + i)%nat
        with (length (sent w) + S i)%nat by lia. apply Hf. simpl. lia. }
    exists e2, r2, w2. split; [done|]. split; [congruence|].
    split; [simpl; lia|]. split; [|congruence].
    rewrite Hsl2, Hsl. by rewrite <- app_assoc.
Qed.

(** A body that cannot be rewound: the first failure ends the loop. *)
Lemma retryLoop_no_rewind (waitFor : Z) (rest : list Z) (u : URL)
    (resp0 : option HttpResponse) (err0 : option string) (r : R) (w : World) :
  (∀ u, http_NewRequest env (ctx r) (method r) u = None) →
  body r ≠ BodyNone →
  is_seeker (body r) && rewinds_ok (body r) = false →
  fails_at env (length (sent w)) →
  ∃ e r1 w1,
    retryLoop env (waitFor :: rest) u resp0 err0 r w = Broke None (Some e) r1 w1
    ∧ err r1 = err r
    ∧ length (sent w1) = S (length (sent w))
    ∧ slept w1 = slept w
    ∧ client w1 = client w
    ∧ objs w1 = objs w.
Proof.
  intros Hq Hb Hs Hf. cbn [retryLoop]. rewrite Hq.
  set (h := Authorize env (client w) (header r)).
  set (req := mkRequest (ctx r) (method r) u h (body r)).
  destruct (Hf req) as [e He]. rewrite He.
  cbn [err_of resp_of outcome interfere closedMeanwhile].
  exists e.
  destruct (bool_decide (Some e = None) || noRetry _).
  { eexists _, _. split; [reflexivity|]. cbn. rewrite length_app, Nat.add_1_r.
    by destruct w as [[] ? ? ?]. }
  cbn [body set_Req set_header].
  destruct (body r) as [|d|d|d ok]; [done| | |]; cbn in Hs; try discriminate;
    cbn [is_seeker rewinds_ok negb]; try rewrite Hs; cbn [negb];
    (eexists _, _; split; [reflexivity|]; cbn; rewrite length_app, Nat.add_1_r;
     by destruct w as [[] ? ? ?]).
Qed.

End RetryLoop.

(** ** Round trips that retry *)

Lemma retryLoop_bound (env : Env) (ts : list Z) :
  ∀ (u : URL) (resp0 : option HttpResponse) (err0 : option string) (r : R) (w : World),
    (length (sent (exit_world (retryLoop env ts u resp0 err0 r w)))
     ≤ length (sent w) + length ts)%nat.
Proof.
  induction ts as [|waitFor rest IH]; intros u resp0 err0 r w.
  - simpl. lia.
  - cbn [retryLoop].
    repeat case_match; cbn [exit_world length];
      try (etrans; [apply IH|]); cbn; rewrite ?length_app; cbn; lia.
Qed.

Lemma Response_enters_loop (env : Env) (r : R) (w : World) :
  sendable env r →
  closed (client w) = false →
  retrying r w →
  ∃ u r4,
    Response env r w = after_loop (retryLoop env timeouts u None None r4 w)
    ∧ body r4 = body r ∧ noRetry r4 = noRetry r ∧ ctx r4 = ctx r
    ∧ method r4 = method r ∧ err r4 = err r.
Proof.
  intros (Hu & He & _) Hc (_ & Ht). unfold Response.
  destruct (uri r) as [u0|]; [|done]. rewrite Ht, Hc.
  change (err (set_uri ?x r)) with (err r). rewrite He.
  eexists _, _. split; [reflexivity|]. by case_match.
Qed.

(** C3: a descriptor that can go on the wire, on an open client, with
    retry on.  If its body cannot be rewound (a reader that cannot
    seek, or one whose seek to the start fails), a failed first
    attempt is the only attempt: [Response] returns the error after
    one request and no wait.  If the body is absent or rewinds, [k < 6]
    failed attempts followed by an answered one make [Response] return
    that answer, after [k + 1] requests and the first [k] waits of
    1, 1, 2, 3, 5, 8 seconds; six failed attempts make it return the
    error after six requests and all six waits.  In no case are more
    than six requests sent. *)
Theorem retry_follows_schedule (env : Env) (r : R) (w : World) :
  sendable env r →
  closed (client w) = false →
  retrying r w →
  (body r ≠ BodyNone →
   is_seeker (body r) && rewinds_ok (body r) = false →
   fails_at env (length (sent w)) →
   ∃ e r' w', Response env r w = Ret (None, Some e, r', w')
              ∧ length (sent w') = S (length (sent w))
              ∧ slept w' = slept w)
  ∧ (body r = BodyNone ∨ rewinds_ok (body r) = true →
     (∀ k, (k < 6)%nat →
           (∀ i, (i < k)%nat → fails_at env (length (sent w) + i)) →
           answers_at env (length (sent w) + k) →
           ∃ rsp q r' w',
             Response env r w = Ret (Some rsp, None, r', w')
             ∧ last (sent w') = Some q
             ∧ outcome (roundTrip env (length (sent w) + k) q) = inl rsp
             ∧ length (sent w') = (length (sent w) + k + 1)%nat
             ∧ slept w' = (slept w ++ take k [1; 1; 2; 3; 5; 8])%list)
     ∧ ((∀ i, (i < 6)%nat → fails_at env (length (sent w) + i)) →
        ∃ e r' w', Response env r w = Ret (None, Some e, r', w')
                   ∧ length (sent w') = (length (sent w) + 6)%nat
                   ∧ slept w' = (slept w ++ [1; 1; 2; 3; 5; 8])%list))
  ∧ (∀ res r' w', Response env r w = Ret (res, r', w') →
                  (length (sent w') ≤ length (sent w) + 6)%nat).
Proof.
  intros Hs Hc Ht.
  destruct (Response_enters_loop env r w Hs Hc Ht)
    as (u & r4 & HR & Hb & Hn & Hx & Hm & He).
  destruct Hs as (_ & Hce & Hq). destruct Ht as (Hnr & _).
  assert (∀ u, http_NewRequest env (ctx r4) (method r4) u = None) as Hq4.
  { intros u'. rewrite Hx, Hm. apply Hq. }
  split; [|split].
  - intros Hbn Hrw Hf. rewrite HR. unfold timeouts.
    destruct (retryLoop_no_rewind env 1 [1; 2; 3; 5; 8] u None None r4 w)
      as (e & r1 & w1 & -> & _ & Hs1 & Hsl & _); [done|by rewrite Hb|by rewrite Hb|done|].
    cbn [after_loop]. by eexists _, _, _.
  - intros Hbody.
    assert (loop_ready env r4) as Hr4.
    { split; [congruence|]. split; [by rewrite Hb|done]. }
    split.
    + intros k Hk Hf Ha. rewrite HR.
      destruct (retryLoop_recovers env k timeouts u None None r4 w)
        as (rsp & q & r1 & w1 & -> & He1 & Hl & Ho & Hs1 & Hsl & _);
        [done|done|done|done|done|].
      cbn [after_loop]. exists rsp, q. eexists _, w1. split; [|done].
      cbn [err set_eTag set_Resp]. unfold Models.HasError.
      by rewrite He1, He, Hce.
    + intros Hf. rewrite HR. unfold timeouts.
      destruct (retryLoop_failed_attempt env 1 [1; 2; 3; 5; 8] u None None r4 w)
        as (e & r1 & w1 & -> & Hr1 & He1 & Hc1 & Hs1 & Hsl1 & _ & _); [done|done| |].
      { specialize (Hf 0%nat). rewrite Nat.add_0_r in Hf. apply Hf. lia. }
      destruct (retryLoop_runs_out env [1; 2; 3; 5; 8] u e r1 w1)
        as (e2 & r2 & w2 & -> & _ & Hs2 & Hsl2 & _); [done|done| |].
      { intros i Hi. rewrite Hs1. replace (S (length (sent w)) + i)%nat
          with (length (sent w) + S i)%nat by lia. apply Hf. simpl in Hi. lia. }
      cbn [after_loop]. eexists _, _, w2. split; [done|].
      split; [rewrite Hs2, Hs1; simpl; lia|].
      rewrite Hsl2, Hsl1. by rewrite <- app_assoc.
  - intros res r' w' HRet. rewrite HR in HRet.
    pose proof (retryLoop_bound env timeouts u None None r4 w) as Hbound.
    destruct (retryLoop env timeouts u None None r4 w) as [e r5 w5|rsp0 e0 r5 w5];
      cbn [after_loop exit_world] in *.
    + injection HRet as <- <- <-. exact Hbound.
    + destruct rsp0 as [rsp0|], e0 as [e0|]; cbn [after_loop] in HRet;
        try discriminate; injection HRet; intros; subst; exact Hbound.
Qed.

Lemma retry_follows_schedule_witness :
  ∃ rsp q r' w',
    Response (Fixture.env_of (Fixture.flaky 2 200))
      (UrlFor (Fixture.env_of (Fixture.flaky 2 200)) Fixture.a_client ["machines"]
         (Req Fixture.a_client))
      (Fixture.a_world Fixture.a_client)
    = Ret (Some rsp, None, r', w')
    ∧ last (sent w') = Some q
    ∧ outcome (roundTrip (Fixture.env_of (Fixture.flaky 2 200)) 2 q) = inl rsp
    ∧ length (sent w') = 3%nat
    ∧ slept w' = [1; 1].
Proof.
  refine (proj1 (proj1 (proj2 (retry_follows_schedule
                                 (Fixture.env_of (Fixture.flaky 2 200))
                                 (UrlFor (Fixture.env_of (Fixture.flaky 2 200))
                                    Fixture.a_client ["machines"] (Req Fixture.a_client))
                                 (Fixture.a_world Fixture.a_client) _ _ _)) _)
            2%nat _ _ _).
  - split; [discriminate|]. split; [reflexivity|]. intros u. reflexivity.
  - reflexivity.
  - split; reflexivity.
  - left. reflexivity.
  - lia.
  - intros i Hi q. exists "connection refused".
    destruct i as [|[|i]]; [reflexivity|reflexivity|lia].
  - intros q. eexists. reflexivity.
Defined.

(** C4 at a failing input: a request with a byte body on a client that
    holds a cached [Info]; the first attempt fails, the second is
    answered.  The retry takes place (two requests, one wait of a
    second), and the cached [Info] is still there afterwards; the same
    request without a body leaves the cache empty.  The closed flag is
    looked at again on both paths: when the client is closed while the
    first attempt is in flight, either request ends with "Connection
    Closed" after that one attempt, without a wait. *)
Theorem retry_with_body_keeps_info :
  match Response (Fixture.env_of (Fixture.flaky 1 200))
          (UrlFor (Fixture.env_of (Fixture.flaky 1 200)) Fixture.informed_client
             ["machines"] (Post (ArgBytes "{}") (Req Fixture.informed_client)))
          Fixture.informed_world
  with
  | Ret (Some _, None, _, w') =>
      length (sent w') = 2%nat ∧ slept w' = [1] ∧ info (client w') = Some 0%nat
  | _ => False
  end
  ∧ match Response (Fixture.env_of (Fixture.flaky 1 200))
            (UrlFor (Fixture.env_of (Fixture.flaky 1 200)) Fixture.informed_client
               ["machines"] (Req Fixture.informed_client))
            Fixture.informed_world
    with
    | Ret (Some _, None, _, w') =>
        length (sent w') = 2%nat ∧ slept w' = [1] ∧ info (client w') = None
    | _ => False
    end
  ∧ match Response (Fixture.env_of (Fixture.closing 0))
            (UrlFor (Fixture.env_of (Fixture.closing 0)) Fixture.informed_client
               ["machines"] (Post (ArgBytes "{}") (Req Fixture.informed_client)))
            Fixture.informed_world
    with
    | Ret (None, Some e, _, w') =>
        last (Models.Messages e) = Some "Connection Closed"
        ∧ length (sent w') = 1%nat ∧ slept w' = []
    | _ => False
    end
  ∧ match Response (Fixture.env_of (Fixture.closing 0))
            (UrlFor (Fixture.env_of (Fixture.closing 0)) Fixture.informed_client
               ["machines"] (Req Fixture.informed_client))
            Fixture.informed_world
    with
    | Ret (None, Some e, _, w') =>
        last (Models.Messages e) = Some "Connection Closed"
        ∧ length (sent w') = 1%nat ∧ slept w' = []
    | _ => False
    end.
Proof. vm_compute. repeat split. Qed.

(** C5 at a failing input: the destination is a file whose checksum
    fingerprint is computed without error.  The one request that
    [GetBlob] sends carries no [If-None-Match] header; it carries one
    when the fingerprint computation reports an error. *)
Theorem GetBlob_omits_validator_on_success :
  match GetBlob (Fixture.env_of (Fixture.flaky 0 200))
          (Fixture.a_file (mkFileOracle false None "0123abcd" None))
          ["isos"; "sledgehammer.iso"] (Fixture.a_world Fixture.a_client)
  with
  | Ret (None, _, w') => Fixture.validators w' = [None]
  | _ => False
  end
  ∧ match GetBlob (Fixture.env_of (Fixture.flaky 0 200))
            (Fixture.a_file (mkFileOracle false (Some "xattr: not supported")
                               "0123abcd" None))
            ["isos"; "sledgehammer.iso"] (Fixture.a_world Fixture.a_client)
    with
    | Ret (None, _, w') =>
        Fixture.validators w'
        = [Some [GoStd.dquote +:+ "SHA256:0123abcd" +:+ GoStd.dquote]]
    | _ => False
    end.
Proof. vm_compute. repeat split. Qed.

(** ** Requests without a validator *)

Lemma header_Headers_pair (k v : string) (r : R) :
  header (Headers [k; v] r) = Header.Add k v (header r).
Proof. reflexivity. Qed.

Lemma Add_keeps_unvalidated (k v : string) (h : gmap string (list string)) :
  GoStd.CanonicalMIMEHeaderKey k ≠ "If-None-Match" →
  h !! "If-None-Match" = None →
  Header.Add k v h !! "If-None-Match" = None.
Proof. intros Hk Hh. unfold Header.Add. by rewrite lookup_insert_ne. Qed.

Lemma Authorize_keeps_unvalidated (env : Env) (c : Client)
    (h : gmap string (list string)) :
  h !! "If-None-Match" = None →
  Authorize env c h !! "If-None-Match" = None.
Proof.
  intros Hh. unfold Authorize, Header.Set_.
  repeat case_match; try done; by rewrite lookup_insert_ne.
Qed.

Lemma retryLoop_keeps_unvalidated (env : Env) (ts : list Z) :
  ∀ (u : URL) (resp0 : option HttpResponse) (err0 : option string) (r : R) (w : World),
    header r !! "If-None-Match" = None →
    Forall unvalidated (sent w) →
    Forall unvalidated (sent (exit_world (retryLoop env ts u resp0 err0 r w))).
Proof.
  induction ts as [|waitFor rest IH]; intros u resp0 err0 r w Hh Hw; [done|].
  cbn [retryLoop].
  destruct (http_NewRequest env (ctx r) (method r) u); [done|].
  set (h := Authorize env (client w) (header r)).
  assert (h !! "If-None-Match" = None) as Hh' by by apply Authorize_keeps_unvalidated.
  set (req := mkRequest _ _ _ _ _).
  assert (Forall unvalidated (sent w ++ [req])) as Hw'.
  { apply Forall_app. split; [done|]. by apply Forall_singleton. }
  repeat case_match; cbn [exit_world]; try done; by apply IH.
Qed.

Lemma Response_keeps_unvalidated (env : Env) (r : R) (w : World) :
  header r !! "If-None-Match" = None →
  Forall unvalidated (sent w) →
  ∀ res r' w', Response env r w = Ret (res, r', w') → Forall unvalidated (sent w').
Proof.
  intros Hh Hw res r' w'. unfold Response.
  destruct (uri r) as [u0|]; [|by intros [= _ _ <-]].
  set (r1 := if _ : bool then _ else r).
  assert (header r1 = header r) as Hh1 by (subst r1; by case_match).
  clearbody r1. set (u := mkURL _ _). clearbody u.
  destruct (closed (client w)); [by intros [= _ _ <-]|].
  destruct (Models.ContainsError _); [by intros [= _ _ <-]|].
  set (r4 := if negb _ then _ else _).
  assert (header r4 !! "If-None-Match" = None) as Hh4.
  { subst r4. case_match; rewrite !header_Headers_pair;
      repeat apply Add_keeps_unvalidated; try done;
      change (header (set_uri ?x r1)) with (header r1); by rewrite Hh1. }
  clearbody r4.
  pose proof (retryLoop_keeps_unvalidated env timeouts u None None r4 w Hh4 Hw) as HL.
  destruct (retryLoop env timeouts u None None r4 w) as [e r5 w5|[rsp|] [e|] r5 w5];
    cbn [after_loop exit_world] in *; intros HR; try discriminate;
    by injection HR as _ _ <-.
Qed.

(** For every file whose fingerprint is computed without error, no
    request that [GetBlob] sends carries an [If-None-Match] header. *)
Lemma GetBlob_validator_absent (env : Env) (dest : Sink) (f : FileOracle)
    (at_ : list string) (w : World) :
  kind dest = OsFile f →
  regenErr f = None →
  Forall unvalidated (sent w) →
  ∀ e d w', GetBlob env dest at_ w = Ret (e, d, w') → Forall unvalidated (sent w').
Proof.
  intros Hk Hr Hw e d w'. unfold GetBlob. rewrite Hk, Hr.
  cbn [String.eqb negb].
  set (req := UrlFor env _ _ _).
  assert (header (accept_headers (DestWriter dest) req) !! "If-None-Match" = None)
    as Hh.
  { unfold accept_headers. rewrite !header_Headers_pair.
    repeat apply Add_keeps_unvalidated; try done.
    subst req. unfold UrlFor. by case_match. }
  clearbody req. unfold Do.
  pose proof (Response_keeps_unvalidated env _ w Hh Hw) as HR.
  destruct (Response env (accept_headers (DestWriter dest) req) w)
    as [[[[rsp e0] r2] w2]|m]; [|done].
  specialize (HR _ _ _ eq_refl).
  destruct rsp as [rsp|], e0 as [e0|]; cbv beta iota;
    try (by intros [= _ _ <-]); try done.
  destruct (decode_response env (DestWriter dest) rsp r2 w2) as [[[e1 d1] r3] w3] eqn:HD.
  assert (w3 = w2) as ->.
  { revert HD. unfold decode_response, decode_tail, store, load.
    repeat case_match; intros; by simplify_eq. }
  cbv beta iota. repeat case_match; by intros [= _ _ <-].
Qed.

(** ** Not modified *)

(** C8: when the round trip of [Do(val)] yields a response with status
    304 and [val] is a writer that can seek, [Do] returns no error and
    hands the writer back positioned at the end of what it holds, with
    its content as it was: nothing written, nothing cut. *)
Theorem not_modified_seeks_to_end (env : Env) (wr : Sink) (resp : HttpResponse)
    (r r2 : R) (w w2 : World) :
  is_WriteSeeker wr = true →
  Response env (accept_headers (DestWriter wr) r) w = Ret (Some resp, None, r2, w2) →
  StatusCode resp = 304 →
  ∃ r3, Do env (DestWriter wr) r w
        = Ret (None, DestWriter (sink_seek_end wr), r3, w2)
        ∧ offset (sink_seek_end wr) = String.length (content wr)
        ∧ content (sink_seek_end wr) = content wr
        ∧ objs w2 = objs w.
Proof.
  intros Hs HR Hc. unfold Do. rewrite HR. unfold decode_response.
  rewrite Hc, Hs. cbn [Z.geb Z.compare Z.eqb Pos.compare Pos.compare_cont Pos.eqb].
  eexists. split; [reflexivity|]. split; [done|]. split; [done|].
  (* the heap: the round trip itself writes no object *)
  revert HR. unfold Response.
  destruct (uri _) as [u|]; [|discriminate].
  destruct (closed (client w)); [discriminate|].
  destruct (Models.ContainsError _); [discriminate|].
  set (r4 := if negb _ then _ else _). clearbody r4.
  set (u' := mkURL _ _). clearbody u'.
  assert (∀ ts rsp0 e0 r0 w0,
             objs (exit_world (retryLoop env ts u' rsp0 e0 r0 w0)) = objs w0) as Hobjs.
  { induction ts as [|t ts IH]; intros rsp0 e0 r0 w0; [done|].
    cbn [retryLoop]. repeat case_match; cbn [exit_world]; rewrite ?IH; done. }
  specialize (Hobjs timeouts None None r4 w).
  destruct (retryLoop env timeouts u' None None r4 w) as [e r5 w5|[rsp0|] [e0|] r5 w5];
    cbn [after_loop exit_world] in *; intros HR; try discriminate.
  by injection HR as _ _ _ <-.
Qed.

Lemma not_modified_seeks_to_end_witness :
  ∃ r3 w2,
    Do (Fixture.env_of (Fixture.flaky 0 304))
       (DestWriter (Fixture.a_file (mkFileOracle false None "0123abcd" None)))
       (UrlFor (Fixture.env_of (Fixture.flaky 0 304)) Fixture.a_client
          ["isos"; "sledgehammer.iso"] (Req Fixture.a_client))
       (Fixture.a_world Fixture.a_client)
    = Ret (None,
           DestWriter (mkSink "old" 3 (OsFile (mkFileOracle false None "0123abcd" None))
                         None),
           r3, w2).
Proof.
  destruct (Response (Fixture.env_of (Fixture.flaky 0 304))
              (accept_headers
                 (DestWriter (Fixture.a_file (mkFileOracle false None "0123abcd" None)))
                 (UrlFor (Fixture.env_of (Fixture.flaky 0 304)) Fixture.a_client
                    ["isos"; "sledgehammer.iso"] (Req Fixture.a_client)))
              (Fixture.a_world Fixture.a_client))
    as [[[[rsp e] r2] w2]|m] eqn:HR.
  all: pose proof (f_equal (λ o, match o with
                                | Ret (Some x, None, _, _) => Some (StatusCode x)
                                | _ => None
                                end) HR) as Hs;
    vm_compute in Hs.
  2: discriminate.
  destruct rsp as [rsp|], e as [e|]; try discriminate.
  edestruct (not_modified_seeks_to_end (Fixture.env_of (Fixture.flaky 0 304))
               (Fixture.a_file (mkFileOracle false None "0123abcd" None)))
    as (r3 & HD & _).
  - reflexivity.
  - exact HR.
  - injection Hs as Hs. symmetry. exact Hs.
  - eexists r3, w2. exact HD.
Defined.

(** ** The cached server information *)










(** * More properties of the code *)

(** ** Headers *)

Lemma addPairs_values (args : list string) :
  ∀ (h : gmap string (list string)) (k : string),
    default [] (addPairs args h !! k)
    = (default [] (h !! k) ++ values_for k args)%list.
Proof.
  induction args as [|x|x y l IH] using pair_ind; intros h k; simpl;
    try by rewrite app_nil_r.
  rewrite IH. unfold Header.Add.
  destruct (String.eqb_spec (GoStd.CanonicalMIMEHeaderKey x) k) as [->|Hne].
  - rewrite lookup_insert_eq. simpl. by rewrite <- app_assoc.
  - by rewrite lookup_insert_ne.
Qed.

(** X1: [Headers] appends.  For an argument list of even length, the
    values of every header are what they were, followed by the values
    that the pairs give to that canonical name, in order: names that
    differ in case only share one entry, and nothing is replaced.  An
    odd list changes no header and records one error. *)
Theorem Headers_append (args : list string) (r : R) (k : string) :
  default [] (header (Headers args r) !! k)
  = (if odd_len args then default [] (header r !! k)
     else default [] (header r !! k) ++ values_for k args)%list
  ∧ Models.Messages (err (Headers args r))
    = (if odd_len args
       then Models.Messages (err r)
              ++ ["WithHeaders was not passed an even number of arguments"]
       else Models.Messages (err r))%list.
Proof.
  unfold Headers. destruct (odd_len args); simpl; [done|].
  split; [apply addPairs_values|done].
Qed.

(** ** Filters *)

Lemma odd_len_cons2 (a b : string) (l : list string) :
  odd_len (a :: b :: l) = odd_len l.
Proof.
  unfold odd_len. cbn [length].
  replace (Z.of_nat (S (S (length l)))) with (Z.of_nat (length l) + 1 * 2) by lia.
  change 1 with (Z.ones 1) at 2 4.
  rewrite !Z.land_ones by lia. by rewrite Z.mod_add by lia.
Qed.

Lemma odd_len_app2 (acc : list string) (a b : string) :
  odd_len (acc ++ [a; b]) = odd_len acc.
Proof.
  induction acc as [|x|x y l IH] using pair_ind; try done.
  cbn [app]. by rewrite !odd_len_cons2.
Qed.

(** Whatever [Filter] compiles has an even number of entries: the
    [Params] call at its end cannot fail. *)
Lemma compileFilter_even (n : nat) :
  ∀ (filterArgs acc fp : list string),
    (length filterArgs ≤ n)%nat →
    odd_len acc = false →
    compileFilter filterArgs acc = FilterOk fp →
    odd_len fp = false.
Proof.
  induction n as [|n IH]; intros filterArgs acc fp Hn Hacc.
  - destruct filterArgs; [|simpl in Hn; lia]. simpl. by intros [= <-].
  - destruct filterArgs as [|f rest]; [simpl; by intros [= <-]|].
    cbn [compileFilter].
    repeat case_match; try discriminate; subst;
      (eapply IH; [simpl in *; lia|by rewrite odd_len_app2]).
Qed.

(** X2: when the arguments of [Filter] compile, the descriptor gets
    exactly the compiled pairs as parameters (last write per key
    wins) and no error beyond what building the URL recorded: the
    [Params] call at the end of [Filter] never trips on an odd
    count. *)
Theorem Filter_sets_compiled_params (env : Env) (c : Client) (prefix : string)
    (filterArgs fp : list string) (r : R) (k : string) :
  compileFilter filterArgs [] = FilterOk fp →
  err (Filter env c prefix filterArgs r) = err (UrlFor env c [prefix] (Get r))
  ∧ params (Filter env c prefix filterArgs r) = setPairs fp (params r)
  ∧ params (Filter env c prefix filterArgs r) !! k
    = match last_value k fp with
      | Some v => Some [v]
      | None => params r !! k
      end.
Proof.
  intros Hfp. unfold Filter. rewrite Hfp. unfold Params.
  rewrite (compileFilter_even (length filterArgs) filterArgs [] fp); [|done|done|done].
  assert (params (UrlFor env c [prefix] (Get r)) = params r) as Hp.
  { unfold UrlFor. by case_match. }
  cbn [err params set_params]. rewrite Hp. split; [done|]. split; [done|].
  apply setPairs_lookup.
Qed.

Lemma Filter_sets_compiled_params_witness :
  compileFilter ["reverse"; "Name"; "between"; "a"; "b"] []
  = FilterOk ["reverse"; "true"; "Name"; "Between(a,b)"]
  ∧ params (Filter (Fixture.env_of (Fixture.flaky 0 200)) Fixture.a_client "machines"
              ["reverse"; "Name"; "between"; "a"; "b"] (Req Fixture.a_client))
      !! "Name"
    = Some ["Between(a,b)"].
Proof.
  split; [reflexivity|].
  exact (proj2 (proj2 (Filter_sets_compiled_params
                         (Fixture.env_of (Fixture.flaky 0 200)) Fixture.a_client
                         "machines" ["reverse"; "Name"; "between"; "a"; "b"]
                         ["reverse"; "true"; "Name"; "Between(a,b)"]
                         (Req Fixture.a_client) "Name" eq_refl))).
Defined.









(** ** Authorization *)

Lemma Get_Set (k v : string) (h : gmap string (list string)) :
  Header.Get k (Header.Set_ k v h) = v.
Proof. unfold Header.Get, Header.Set_. by rewrite lookup_insert_eq. Qed.

(** X5: [Authorize] fills in the [Authorization] header and nothing
    else.  A header that is there stays as it is; a missing one becomes
    the bearer token if the client holds one, else the basic
    credentials; every other header is untouched; and authorizing
    twice is the same as authorizing once. *)
Theorem Authorize_fills_in_once (env : Env) (c : Client)
    (h : gmap string (list string)) (k : string) :
  Header.Get "Authorization" (Authorize env c h)
  = (if String.eqb (Header.Get "Authorization" h) "" then
       if String.eqb (Token c) ""
       then "Basic " +:+ base64_Encode env (username c +:+ ":" +:+ password c)
       else "Bearer " +:+ Token c
     else Header.Get "Authorization" h)
  ∧ Authorize env c h !! k
    = (if bool_decide (k = "Authorization") then Authorize env c h !! k else h !! k)
  ∧ Authorize env c (Authorize env c h) = Authorize env c h.
Proof.
  assert (Header.Get "Authorization" (Authorize env c h)
          = (if String.eqb (Header.Get "Authorization" h) "" then
               if String.eqb (Token c) ""
               then "Basic " +:+ base64_Encode env (username c +:+ ":" +:+ password c)
               else "Bearer " +:+ Token c
             else Header.Get "Authorization" h)) as HG.
  { unfold Authorize.
    destruct (String.eqb (Header.Get "Authorization" h) "") eqn:Hh; [|done].
    destruct (String.eqb (Token c) ""); cbn [negb]; by rewrite Get_Set. }
  split; [exact HG|]. split.
  - case_bool_decide; [done|]. unfold Authorize, Header.Set_.
    repeat case_match; try done; by rewrite lookup_insert_ne.
  - unfold Authorize at 1. rewrite HG.
    destruct (String.eqb (Header.Get "Authorization" h) "") eqn:Hh.
    + by destruct (String.eqb (Token c) "").
    + by rewrite Hh.
Qed.

(** ** What every round trip keeps to *)

(** However the loop is left, it slept a prefix of its schedule and
    sent as many requests as it slept waits, or one more. *)
Lemma retryLoop_schedule (env : Env) (ts : list Z) :
  ∀ (u : URL) (resp0 : option HttpResponse) (err0 : option string) (r : R) (w : World),
    ∃ k : nat,
      (k ≤ length ts)%nat
      ∧ slept (exit_world (retryLoop env ts u resp0 err0 r w))
        = (slept w ++ take k ts)%list
      ∧ (length (sent w) + k
         ≤ length (sent (exit_world (retryLoop env ts u resp0 err0 r w))))%nat
      ∧ (length (sent (exit_world (retryLoop env ts u resp0 err0 r w)))
         ≤ length (sent w) + S k)%nat
      ∧ objs (exit_world (retryLoop env ts u resp0 err0 r w)) = objs w.
Proof.
  induction ts as [|waitFor rest IH]; intros u resp0 err0 r w.
  - exists 0%nat. cbn. rewrite app_nil_r. repeat split; lia.
  - cbn [retryLoop].
    repeat case_match; cbn [exit_world];
      first
        [ exists 0%nat; cbn; rewrite ?length_app, ?app_nil_r; cbn;
          split; [lia|split; [done|split; [lia|split; [lia|done]]]]
        | match goal with
          | |- context [retryLoop env rest ?u' ?a ?b ?r' ?w'] =>
              destruct (IH u' a b r' w') as (k & Hk & Hs & Hl1 & Hl2 & Ho)
          end;
          exists (S k); rewrite Hs, Ho; cbn in *; rewrite ?length_app in *; cbn in *;
          split; [lia|split; [by rewrite <- app_assoc|split; [lia|split; [lia|done]]]] ].
Qed.

(** X6: whatever the transport does, a call of [Response] sleeps
    exactly a prefix of the schedule 1, 1, 2, 3, 5, 8: after [k] waits
    it has sent [k] or [k + 1] requests, never more than six, and it
    never writes a heap object. *)
Theorem Response_keeps_to_schedule (env : Env) (r : R) (w : World)
    (res : option HttpResponse * option Models.Error) (r' : R) (w' : World) :
  Response env r w = Ret (res, r', w') →
  ∃ k : nat,
    (k ≤ 6)%nat
    ∧ slept w' = (slept w ++ take k [1; 1; 2; 3; 5; 8])%list
    ∧ (length (sent w) + k ≤ length (sent w'))%nat
    ∧ (length (sent w') ≤ length (sent w) + S k)%nat
    ∧ (length (sent w') ≤ length (sent w) + 6)%nat
    ∧ objs w' = objs w.
Proof.
  assert (∀ w0 : World, ∃ k : nat,
             (k ≤ 6)%nat ∧ slept w0 = (slept w0 ++ take k [1; 1; 2; 3; 5; 8])%list
             ∧ (length (sent w0) + k ≤ length (sent w0))%nat
             ∧ (length (sent w0) ≤ length (sent w0) + S k)%nat
             ∧ (length (sent w0) ≤ length (sent w0) + 6)%nat
             ∧ objs w0 = objs w0) as Hstay.
  { intros w0. exists 0%nat. cbn. rewrite app_nil_r. repeat split; lia. }
  unfold Response.
  destruct (uri r) as [u0|]; [|intros [= _ _ <-]; apply Hstay].
  destruct (closed (client w)); [intros [= _ _ <-]; apply Hstay|].
  destruct (Models.ContainsError _); [intros [= _ _ <-]; apply Hstay|].
  set (r4 := if negb _ then _ else _). clearbody r4.
  set (u := mkURL _ _). clearbody u.
  destruct (retryLoop_schedule env timeouts u None None r4 w)
    as (k & Hk & Hs & Hl1 & Hl2 & Ho).
  pose proof (retryLoop_bound env timeouts u None None r4 w) as Hb.
  intros HR. exists k.
  destruct (retryLoop env timeouts u None None r4 w) as [e r5 w5|[rsp|] [e|] r5 w5];
    cbn [after_loop exit_world] in *; try discriminate;
    injection HR as _ _ <-; done.
Qed.

Lemma Response_keeps_to_schedule_witness :
  ∃ (k : nat) res r' w',
    Response (Fixture.env_of (Fixture.flaky 3 200))
      (UrlFor (Fixture.env_of (Fixture.flaky 3 200)) Fixture.a_client ["machines"]
         (Req Fixture.a_client))
      (Fixture.a_world Fixture.a_client)
    = Ret (res, r', w')
    ∧ slept w' = take k [1; 1; 2; 3; 5; 8]
    ∧ (length (sent w') ≤ S k)%nat.
Proof.
  destruct (Response (Fixture.env_of (Fixture.flaky 3 200))
              (UrlFor (Fixture.env_of (Fixture.flaky 3 200)) Fixture.a_client
                 ["machines"] (Req Fixture.a_client))
              (Fixture.a_world Fixture.a_client)) as [[[res r'] w']|m] eqn:HR.
  - destruct (Response_keeps_to_schedule _ _ _ _ _ _ HR) as (k & _ & Hs & _ & Hl & _).
    exists k, res, r', w'. split; [reflexivity|]. split; [exact Hs|exact Hl].
  - pose proof (f_equal (λ o, match o with Ret _ => true | Panic _ => false end) HR)
      as Hp.
    vm_compute in Hp. discriminate.
Defined.

(** One pass of the loop with retry off: the loop is left at once. *)
Lemma retryLoop_once (env : Env) (waitFor : Z) (rest : list Z) (u : URL)
    (resp0 : option HttpResponse) (err0 : option string) (r : R) (w : World) :
  noRetry r = true →
  slept (exit_world (retryLoop env (waitFor :: rest) u resp0 err0 r w)) = slept w
  ∧ (length (sent (exit_world (retryLoop env (waitFor :: rest) u resp0 err0 r w)))
     ≤ S (length (sent w)))%nat.
Proof.
  intros Hn. cbn [retryLoop].
  destruct (http_NewRequest env (ctx r) (method r) u); [cbn; split; [done|lia]|].
  cbn [noRetry set_Req set_header]. rewrite Hn, orb_true_r. cbn.
  rewrite length_app. cbn. split; [done|lia].
Qed.

(** X7: with retry off the first attempt is the only one.  After
    [FailFast] or [Context], and on a client with a default round-trip
    time-out when the descriptor still has the background context,
    [Response] sends at most one request and never sleeps, whatever
    the transport answers. *)
Theorem no_retry_is_one_attempt (env : Env) (r : R) (w : World)
    (res : option HttpResponse * option Models.Error) (r' : R) (w' : World) :
  noRetry r = true
  ∨ (0 < RoundTripTimeout (client w) ∧ is_background (ctx r) = true) →
  Response env r w = Ret (res, r', w') →
  slept w' = slept w
  ∧ (length (sent w') ≤ S (length (sent w)))%nat
  ∧ ∀ (x : R) (cx : Context),
      noRetry (FailFast x) = true ∧ noRetry (Context_ cx x) = true.
Proof.
  intros Hn. unfold Response.
  destruct (uri r) as [u0|]; [|intros [= _ _ <-]; split; [done|split; [lia|done]]].
  set (r1 := if _ : bool then _ else r).
  assert (noRetry r1 = true) as Hn1.
  { subst r1. destruct Hn as [Hn|[Ht Hb]]; [by case_match|].
    by rewrite Hb, (proj2 (Z.gtb_lt _ _) Ht). }
  clearbody r1.
  destruct (closed (client w)); [intros [= _ _ <-]; split; [done|split; [lia|done]]|].
  destruct (Models.ContainsError _);
    [intros [= _ _ <-]; split; [done|split; [lia|done]]|].
  set (r4 := if negb _ then _ else _).
  assert (noRetry r4 = true) as Hn4 by (subst r4; by case_match).
  clearbody r4. set (u := mkURL _ _). clearbody u. unfold timeouts.
  destruct (retryLoop_once env 1 [1; 2; 3; 5; 8] u None None r4 w Hn4) as [Hs Hl].
  intros HR.
  destruct (retryLoop env (1 :: [1; 2; 3; 5; 8]) u None None r4 w)
    as [e r5 w5|[rsp|] [e|] r5 w5];
    cbn [after_loop exit_world] in *; try discriminate;
    injection HR as _ _ <-; done.
Qed.

Lemma no_retry_is_one_attempt_witness :
  ∃ res r' w',
    Response (Fixture.env_of (Fixture.flaky 3 200))
      (FailFast (UrlFor (Fixture.env_of (Fixture.flaky 3 200)) Fixture.a_client
                   ["machines"] (Req Fixture.a_client)))
      (Fixture.a_world Fixture.a_client)
    = Ret (res, r', w')
    ∧ slept w' = []
    ∧ (length (sent w') ≤ 1)%nat.
Proof.
  destruct (Response (Fixture.env_of (Fixture.flaky 3 200))
              (FailFast (UrlFor (Fixture.env_of (Fixture.flaky 3 200)) Fixture.a_client
                           ["machines"] (Req Fixture.a_client)))
              (Fixture.a_world Fixture.a_client)) as [[[res r'] w']|m] eqn:HR.
  - assert (noRetry (FailFast (UrlFor (Fixture.env_of (Fixture.flaky 3 200))
                                 Fixture.a_client ["machines"] (Req Fixture.a_client)))
            = true
            ∨ (0 < RoundTripTimeout (client (Fixture.a_world Fixture.a_client))
               ∧ is_background
                   (ctx (FailFast (UrlFor (Fixture.env_of (Fixture.flaky 3 200))
                                     Fixture.a_client ["machines"]
                                     (Req Fixture.a_client)))) = true)) as Hn.
    { left. reflexivity. }
    destruct (no_retry_is_one_attempt _ _ _ _ _ _ Hn HR) as (Hs & Hl & _).
    exists res, r', w'. split; [reflexivity|]. split; [exact Hs|exact Hl].
  - pose proof (f_equal (λ o, match o with Ret _ => true | Panic _ => false end) HR)
      as Hp.
    vm_compute in Hp. discriminate.
Defined.

(** ** What a returned response is *)

(** A response with which the loop is left is the answer to the last
    request sent, which is the one kept in [r.Req]. *)
Lemma retryLoop_answer (env : Env) (ts : list Z) :
  ∀ (u : URL) (err0 : option string) (r : R) (w : World)
    (rsp : HttpResponse) (e' : option string) (r5 : R) (w5 : World),
    retryLoop env ts u None err0 r w = Broke (Some rsp) e' r5 w5 →
    e' = None ∧ err r5 = err r
    ∧ ∃ q, last (sent w5) = Some q ∧ Req_ r5 = Some q
           ∧ outcome (roundTrip env (length (sent w5) - 1) q) = inl rsp.
Proof.
  induction ts as [|waitFor rest IH]; intros u err0 r w rsp e' r5 w5; [done|].
  cbn [retryLoop].
  destruct (http_NewRequest env (ctx r) (method r) u); [done|].
  set (h := Authorize env (client w) (header r)).
  set (req := mkRequest _ _ _ _ _).
  unfold resp_of, err_of.
  destruct (outcome (roundTrip env (length (sent w)) req)) as [x|e] eqn:Ho.
  - rewrite bool_decide_eq_true_2 by done. cbn [orb]. intros [= <- <- <- <-].
    split; [done|]. split; [done|]. exists req. cbn. rewrite last_snoc, length_app.
    cbn. split; [done|]. split; [done|].
    by replace (length (sent w) + 1 - 1)%nat with (length (sent w)) by lia.
  - repeat case_match; try done; intros HL;
      destruct (IH _ _ _ _ _ _ _ _ HL) as (-> & He & q & Hq); by eauto.
Qed.

(** X8: a response that [Response] returns comes without an error; it
    is the answer to the last request sent, which is kept in [r.Req];
    it is kept in [r.Resp], and [GetETag] gives its [ETag] header
    (empty when it has none), whatever its status. *)
Theorem Response_keeps_what_it_returns (env : Env) (r : R) (w : World)
    (rsp : HttpResponse) (e : option Models.Error) (r' : R) (w' : World) :
  Response env r w = Ret (Some rsp, e, r', w') →
  e = None
  ∧ Resp r' = Some rsp
  ∧ GetETag r' = Header.Get "ETag" (respHeader rsp)
  ∧ ∃ q, last (sent w') = Some q ∧ Req_ r' = Some q
         ∧ outcome (roundTrip env (length (sent w') - 1) q) = inl rsp.
Proof.
  unfold Response.
  destruct (uri r) as [u0|]; [|done].
  set (r1 := if _ : bool then _ else r). clearbody r1.
  destruct (closed (client w)); [done|].
  change (err (set_uri ?x ?y)) with (err y).
  destruct (Models.ContainsError _) eqn:Hce; [done|].
  set (r4 := if negb _ then _ else _).
  assert (Models.ContainsError (err r4) = false) as He4.
  { subst r4. case_match; cbn; exact Hce. }
  clearbody r4. set (u := mkURL _ _). clearbody u.
  destruct (retryLoop env timeouts u None None r4 w) as [e0 r5 w5|[x|] [e0|] r5 w5]
    eqn:HL; cbn [after_loop]; try done.
  intros [= <- <- <- <-].
  destruct (retryLoop_answer env timeouts u None r4 w x None r5 w5 HL)
    as (_ & He5 & q & Hq).
  unfold Models.HasError. cbn [err set_eTag set_Resp Resp GetETag eTag].
  rewrite He5, He4. split; [done|]. split; [done|]. split; [done|].
  exists q. done.
Qed.

Lemma Response_keeps_what_it_returns_witness :
  ∃ rsp e r' w',
    Response (Fixture.env_of (Fixture.flaky 1 404))
      (UrlFor (Fixture.env_of (Fixture.flaky 1 404)) Fixture.a_client ["machines"]
         (Req Fixture.a_client))
      (Fixture.a_world Fixture.a_client)
    = Ret (Some rsp, e, r', w')
    ∧ e = None ∧ Resp r' = Some rsp.
Proof.
  destruct (Response (Fixture.env_of (Fixture.flaky 1 404))
              (UrlFor (Fixture.env_of (Fixture.flaky 1 404)) Fixture.a_client
                 ["machines"] (Req Fixture.a_client))
              (Fixture.a_world Fixture.a_client)) as [[[[rsp e] r'] w']|m] eqn:HR.
  all: pose proof (f_equal (λ o, match o with
                                | Ret (Some _, _, _, _) => true
                                | _ => false
                                end) HR) as Hp;
    vm_compute in Hp.
  2: discriminate.
  destruct rsp as [rsp|]; [|discriminate].
  destruct (Response_keeps_what_it_returns _ _ _ _ _ _ _ HR) as (He & Hr & _).
  exists rsp, e, r', w'. split; [reflexivity|]. split; [exact He|exact Hr].
Defined.

(** ** Error statuses *)

(** [Response] never writes a heap object. *)
Lemma Response_keeps_objs (env : Env) (r : R) (w : World)
    (res : option HttpResponse * option Models.Error) (r' : R) (w' : World) :
  Response env r w = Ret (res, r', w') → objs w' = objs w.
Proof.
  unfold Response.
  destruct (uri r) as [u0|]; [|by intros [= _ _ <-]].
  destruct (closed (client w)); [by intros [= _ _ <-]|].
  destruct (Models.ContainsError _); [by intros [= _ _ <-]|].
  set (r4 := if negb _ then _ else _). clearbody r4.
  set (u := mkURL _ _). clearbody u.
  destruct (retryLoop_schedule env timeouts u None None r4 w) as (k & _ & _ & _ & _ & Ho).
  intros HR.
  destruct (retryLoop env timeouts u None None r4 w) as [e r5 w5|[rsp|] [e|] r5 w5];
    cbn [after_loop exit_world] in *; try discriminate;
    by injection HR as _ _ <-.
Qed.

(** X9: a response with a status of 400 or more makes [Do] return an
    error and leaves the destination and the heap alone: nothing is
    decoded into [val], nothing written to a sink.  For a [HEAD]
    request the error is the descriptor's, with the status as its code
    and the status text as its last message. *)
Theorem error_status_spares_destination (env : Env) (val : Dest) (rsp : HttpResponse)
    (r r2 : R) (w w2 : World) :
  Response env (accept_headers val r) w = Ret (Some rsp, None, r2, w2) →
  400 ≤ StatusCode rsp →
  ∃ e r3,
    Do env val r w = Ret (Some e, val, r3, w2)
    ∧ objs w2 = objs w
    ∧ if String.eqb (method r2) "HEAD"
      then e = ErrModel (err r3)
           ∧ Models.Code (err r3) = StatusCode rsp
           ∧ last (Models.Messages (err r3))
             = Some (http_StatusText env (StatusCode rsp))
      else True.
Proof.
  intros HR Hc. unfold Do. rewrite HR. unfold decode_response.
  rewrite (proj2 (Z.geb_le _ _)) by lia.
  pose proof (Response_keeps_objs _ _ _ _ _ _ HR) as Ho.
  destruct (String.eqb (method r2) "HEAD").
  - eexists _, _. split; [reflexivity|]. split; [done|]. split; [done|].
    split; [done|]. cbn. apply last_snoc.
  - destruct (ReadAll rsp); [destruct (json_UnmarshalError env _)|];
      by eexists _, _.
Qed.

Lemma error_status_spares_destination_witness :
  ∃ e r3 w2,
    Do (Fixture.env_of (Fixture.flaky 0 500)) (DestPtr 0)
       (UrlFor (Fixture.env_of (Fixture.flaky 0 500)) Fixture.informed_client
          ["info"] (Req Fixture.informed_client))
       Fixture.informed_world
    = Ret (Some e, DestPtr 0, r3, w2)
    ∧ objs w2 = [OInfo Models.emptyInfo].
Proof.
  destruct (Response (Fixture.env_of (Fixture.flaky 0 500))
              (accept_headers (DestPtr 0)
                 (UrlFor (Fixture.env_of (Fixture.flaky 0 500)) Fixture.informed_client
                    ["info"] (Req Fixture.informed_client)))
              Fixture.informed_world) as [[[[rsp e] r2] w2]|m] eqn:HR.
  all: pose proof (f_equal (λ o, match o with
                                | Ret (Some x, None, _, _) => Some (StatusCode x)
                                | _ => None
                                end) HR) as Hs;
    vm_compute in Hs.
  2: discriminate.
  destruct rsp as [rsp|], e as [e|]; try discriminate.
  destruct (error_status_spares_destination _ _ _ _ _ _ _ HR) as (e & r3 & HD & Ho & _).
  - injection Hs as Hs. assert (StatusCode rsp = 500) as -> by (symmetry; exact Hs).
    lia.
  - exists e, r3, w2. split; [exact HD|exact Ho].
Defined.

(** ** Round trips that are answered at once *)

Lemma retryLoop_answered_quietly (env : Env) (waitFor : Z) (rest : list Z) (u : URL)
    (resp0 : option HttpResponse) (err0 : option string) (r : R) (w : World) :
  http_NewRequest env (ctx r) (method r) u = None →
  answers_quietly env (length (sent w)) →
  ∃ rsp r1 w1,
    retryLoop env (waitFor :: rest) u resp0 err0 r w = Broke (Some rsp) None r1 w1
    ∧ roundTrip env (length (sent w))
        (mkRequest (ctx r) (method r) u (Authorize env (client w) (header r)) (body r))
      = mkAttempt (inl rsp) false
    ∧ method r1 = method r ∧ err r1 = err r
    ∧ sent w1
      = (sent w ++ [mkRequest (ctx r) (method r) u
                      (Authorize env (client w) (header r)) (body r)])%list
    ∧ slept w1 = slept w ∧ client w1 = client w ∧ objs w1 = objs w.
Proof.
  intros Hq Ha. cbn [retryLoop]. rewrite Hq.
  set (req := mkRequest _ _ _ _ _).
  destruct (Ha req) as [rsp Hrsp]. unfold err_of, resp_of. rewrite Hrsp.
  cbn [outcome closedMeanwhile interfere].
  rewrite bool_decide_eq_true_2 by done. cbn [orb].
  eexists rsp, _, _. split; [reflexivity|]. by destruct w as [[] ? ? ?].
Qed.

(** A descriptor that can go on the wire, on an open client, whose
    first attempt is answered: [Response] returns that answer after
    the one request, which carries the descriptor's method, body, URL
    and encoded parameters. *)
Lemma Response_answered (env : Env) (r : R) (w : World) (u0 : URL) :
  uri r = Some u0 →
  closed (client w) = false →
  Models.ContainsError (err r) = false →
  (∀ cx u, http_NewRequest env cx (method r) u = None) →
  answers_quietly env (length (sent w)) →
  ∃ rsp q r' w',
    Response env r w = Ret (Some rsp, None, r', w')
    ∧ roundTrip env (length (sent w)) q = mkAttempt (inl rsp) false
    ∧ reqMethod q = method r ∧ reqBody q = body r
    ∧ reqURL q = mkURL (Raw u0) (url_Encode env (params r))
    ∧ method r' = method r ∧ err r' = err r
    ∧ sent w' = (sent w ++ [q])%list
    ∧ slept w' = slept w ∧ client w' = client w ∧ objs w' = objs w.
Proof.
  intros Hu Hc He Hq Ha. unfold Response. rewrite Hu, Hc.
  set (r1 := if _ : bool then _ else r).
  assert (method r1 = method r ∧ err r1 = err r ∧ body r1 = body r
          ∧ params r1 = params r) as (Hm1 & He1 & Hb1 & Hp1).
  { subst r1. by case_match. }
  clearbody r1.
  change (err (set_uri ?x ?y)) with (err y). rewrite He1, He.
  set (r4 := if negb _ then _ else _).
  assert (method r4 = method r ∧ err r4 = err r ∧ body r4 = body r)
    as (Hm4 & He4 & Hb4).
  { subst r4. case_match; cbn; by rewrite ?Hm1, ?He1, ?Hb1. }
  clearbody r4. unfold timeouts.
  destruct (retryLoop_answered_quietly env 1 [1; 2; 3; 5; 8]
              (mkURL (Raw u0) (url_Encode env (params r1))) None None r4 w)
    as (rsp & r5 & w5 & -> & Hrt & Hm5 & He5 & Hs & Hsl & Hcl & Hob); [|done|].
  { rewrite Hm4. apply Hq. }
  cbn [after_loop]. eexists rsp, _, _, w5. split.
  { unfold Models.HasError. cbn [err set_eTag set_Resp]. rewrite He5, He4, He.
    reflexivity. }
  split; [exact Hrt|]. cbn [reqMethod reqBody reqURL method err set_eTag set_Resp].
  rewrite Hp1 in *. do 3 (split; [done|]). split; [congruence|]. split; [congruence|].
  done.
Qed.

(** The decoder touches neither the client nor the logs, and a nil
    destination keeps the heap as it is. *)
Lemma decode_response_frame (env : Env) (val : Dest) (rsp : HttpResponse) (r : R)
    (w : World) (e : option GoError) (d : Dest) (r' : R) (w' : World) :
  decode_response env val rsp r w = (e, d, r', w') →
  client w' = client w ∧ sent w' = sent w ∧ slept w' = slept w.
Proof.
  unfold decode_response, decode_tail, store.
  repeat case_match; intros; by simplify_eq.
Qed.

(** ** Does the object exist? *)

(** X10: [ExistsModel] on an open client whose [HEAD] request is
    answered with status [code].  It sends that one request and says
    "yes" exactly for a status up to 300 or 304; it returns no error
    exactly for those and for 404, which is a plain "no"; any other
    status is "no" with an error. *)
Theorem ExistsModel_reads_the_status (env : Env) (prefix key : string) (w : World)
    (u : URL) (code : Z) :
  closed (client w) = false →
  UrlForProxy env (client w) (urlProxy (client w)) [prefix; key] = inl u →
  (∀ cx u', http_NewRequest env cx "HEAD" u' = None) →
  (∀ q, ∃ rsp, roundTrip env (length (sent w)) q = mkAttempt (inl rsp) false
               ∧ StatusCode rsp = code) →
  ∃ b e w',
    ExistsModel env prefix key w = Ret (b, e, w')
    ∧ length (sent w') = S (length (sent w))
    ∧ b = ((code <=? 300) || (code =? 304))
    ∧ (e = None ↔ code = 404 ∨ code ≤ 300 ∨ code = 304).
Proof.
  intros Hc Hu Hq Ha. unfold ExistsModel, Do.
  assert (UrlFor env (client w) [prefix; key] (Head (Req (client w)))
          = set_uri (Some u) (Head (Req (client w)))) as ->.
  { unfold UrlFor. cbn [proxy Head Meth set_method Req]. by rewrite Hu. }
  destruct (Response_answered env
              (accept_headers DestNil (set_uri (Some u) (Head (Req (client w))))) w u)
    as (rsp & q & r' & w' & -> & Hrt & _ & _ & _ & Hm & He & Hs & _);
    [done|done|done|exact Hq| |].
  { intros q. destruct (Ha q) as (rsp & Hrsp & _). by exists rsp. }
  destruct (Ha q) as (rsp' & Hrsp & Hcode). rewrite Hrt in Hrsp.
  injection Hrsp as <-.
  assert (method r' = "HEAD") as Hm' by (by rewrite Hm).
  assert (length (sent w') = S (length (sent w))) as Hlen.
  { rewrite Hs, length_app. cbn. lia. }
  unfold decode_response. rewrite Hcode.
  destruct (code >=? 400) eqn:H400.
  - rewrite Hm'. cbn [String.eqb Ascii.eqb Bool.eqb andb status_error err set_err
                       Models.Code Models.set_Code].
    apply Z.geb_le in H400.
    destruct (code =? 404) eqn:H404.
    + apply Z.eqb_eq in H404. eexists _, _, _. split; [reflexivity|]. split; [done|].
      split; [|by intuition].
      symmetry. apply orb_false_iff. split; [apply Z.leb_gt|apply Z.eqb_neq]; lia.
    + apply Z.eqb_neq in H404. eexists _, _, _. split; [reflexivity|]. split; [done|].
      split; [symmetry; apply orb_false_iff; split;
              [apply Z.leb_gt|apply Z.eqb_neq]; lia|].
      split; [done|]. intros [?|[?|?]]; lia.
  - rewrite Z.geb_leb in H400. apply Z.leb_gt in H400.
    unfold decode_tail. rewrite Hcode. cbn [method set_eTag]. rewrite Hm'.
    cbn [String.eqb Ascii.eqb Bool.eqb andb is_nil negb].
    destruct ((code <=? 300) || (code =? 304)) eqn:Hok.
    + eexists _, _, _. split; [reflexivity|]. split; [done|]. split; [done|].
      split; [intros _|done].
      apply orb_true_iff in Hok as [Hok|Hok];
        [apply Z.leb_le in Hok|apply Z.eqb_eq in Hok]; lia.
    + apply orb_false_iff in Hok as [H1 H2].
      apply Z.leb_gt in H1. apply Z.eqb_neq in H2.
      cbn [status_error err set_err Models.Code Models.set_Code].
      rewrite (proj2 (Z.eqb_neq code 404)) by lia.
      eexists _, _, _. split; [reflexivity|]. split; [done|]. split; [done|].
      split; [done|]. intros [?|[?|?]]; lia.
Qed.

Lemma ExistsModel_reads_the_status_witness :
  ∃ w',
    ExistsModel (Fixture.env_of (Sample.always (Sample.plain 404 "")))
      "machines" "gone" (Fixture.a_world Fixture.a_client)
    = Ret (false, None, w').
Proof.
  destruct (ExistsModel_reads_the_status
              (Fixture.env_of (Sample.always (Sample.plain 404 "")))
              "machines" "gone" (Fixture.a_world Fixture.a_client)
              (mkURL "https://127.0.0.1:8092/api/v3/machines/gone" "") 404)
    as (b & e & w' & HE & _ & Hb & He).
  - reflexivity.
  - reflexivity.
  - reflexivity.
  - intros q. eexists. split; reflexivity.
  - exists w'. rewrite HE. rewrite Hb. rewrite (proj2 He) by (left; reflexivity).
    reflexivity.
Defined.

(** ** The client after [Close] *)

(** X11: once [Close] has returned, the first [Info()] sends nothing
    and returns the error "Connection Closed" together with a pointer
    to an empty [Info], which it leaves cached: the next [Info()]
    returns that empty [Info] with a nil error. *)
Theorem Info_after_Close (env : Env) (c : Client) (w : World) (u : URL) :
  Close c = Ret (client w) →
  UrlForProxy env (client w) (urlProxy (client w)) ["info"] = inl u →
  ∃ l e w1,
    Info env w = Ret (Some l, Some (ErrModel e), w1)
    ∧ last (Models.Messages e) = Some "Connection Closed"
    ∧ sent w1 = sent w ∧ slept w1 = slept w
    ∧ objs w1 !! l = Some (OInfo Models.emptyInfo)
    ∧ Info env w1 = Ret (Some l, None, w1).
Proof.
  intros HC Hu.
  assert (closed (client w) = true ∧ info (client w) = None) as [Hcl Hi].
  { unfold Close in HC. destruct (closer c); try discriminate.
    injection HC as <-. done. }
  unfold Info at 1. rewrite Hi.
  set (l := length (objs w)).
  set (w1 := set_client _ _).
  assert (UrlFor env (client w1) ["info"] (Req (client w1))
          = set_uri (Some u) (Req (client w1))) as ->.
  { unfold UrlFor. cbn [proxy Req]. subst w1.
    cbn [client set_client set_objs urlProxy set_info].
    change (UrlForProxy env (set_info ?x ?y) ?p ?a) with (UrlForProxy env y p a).
    by rewrite Hu. }
  unfold Do.
  destruct (Response_closed env
              (accept_headers (DestPtr l) (set_uri (Some u) (Req (client w1)))) w1)
    as (r' & -> & Hm); [done|by rewrite uri_accept_headers|].
  exists l, (err r'), w1. split; [by destruct (late_operand_read env)|].
  split; [by rewrite Hm, last_snoc|].
  split; [done|]. split; [done|]. split.
  { subst w1 l. cbn [objs set_client set_objs]. by rewrite list_lookup_middle. }
  reflexivity.
Qed.

Lemma Info_after_Close_witness :
  ∃ l e w1,
    Info (Fixture.env_of (Fixture.flaky 0 200)) (Fixture.a_world Sample.closed_client)
    = Ret (Some l, Some (ErrModel e), w1)
    ∧ sent w1 = []
    ∧ Info (Fixture.env_of (Fixture.flaky 0 200)) w1 = Ret (Some l, None, w1).
Proof.
  destruct (Info_after_Close (Fixture.env_of (Fixture.flaky 0 200)) Fixture.a_client
              (Fixture.a_world Sample.closed_client)
              (mkURL "https://127.0.0.1:8092/api/v3/info" ""))
    as (l & e & w1 & H1 & _ & Hs & _ & _ & H2).
  - reflexivity.
  - reflexivity.
  - exists l, e, w1. split; [exact H1|]. split; [exact Hs|exact H2].
Defined.

(** ** Objects without a key, and patches across objects *)

(** X12: [Fill] and [Delete] of a model whose key is empty return the
    descriptor's error, whose last message names the operation and the
    prefix, and leave the world alone.  The error's [Model] is the
    (empty) key, not the prefix: the second assignment to [r.err.Model]
    overwrites the first. *)
Theorem empty_key_is_refused (env : Env) (m : ModelRef) (l : nat) (r : R) (w : World) :
  MKey m = "" →
  ∃ e1 r1 e2 r2,
    Fill env m l r w = Ret (Some (ErrModel e1), r1, w)
    ∧ Delete env m l r w = Ret (Some (ErrModel e2), r2, w)
    ∧ Models.Messages e1
      = (Models.Messages (err r)
         ++ ["Cannot Fill " +:+ Prefix m +:+ " with an empty key"])%list
    ∧ Models.Messages e2
      = (Models.Messages (err r)
         ++ ["Cannot Delete " +:+ Prefix m +:+ " with an empty key"])%list
    ∧ Models.Model e1 = "" ∧ Models.Model e2 = ""
    ∧ Models.Key e1 = Models.Key (err r) ∧ Models.Key e2 = Models.Key (err r).
Proof.
  intros Hk. unfold Fill, Delete. rewrite Hk. cbn [String.eqb].
  eexists _, _, _, _. split; [reflexivity|]. split; [reflexivity|]. done.
Qed.

Lemma empty_key_is_refused_witness :
  ∃ e r1,
    Fill (Fixture.env_of (Fixture.flaky 0 200)) Sample.a_machine 0
      (Req Fixture.a_client) (Fixture.a_world Fixture.a_client)
    = Ret (Some (ErrModel e), r1, Fixture.a_world Fixture.a_client)
    ∧ Models.Messages e = ["Cannot Fill machines with an empty key"].
Proof.
  destruct (empty_key_is_refused (Fixture.env_of (Fixture.flaky 0 200))
              Sample.a_machine 0 (Req Fixture.a_client)
              (Fixture.a_world Fixture.a_client))
    as (e1 & r1 & _ & _ & H1 & _ & Hm & _).
  - reflexivity.
  - exists e1, r1. split; [exact H1|exact Hm].
Defined.

(** X13: [PatchToFull] between models that differ in prefix or key
    returns [old] and an error that holds the "Cannot patch from"
    message; no patch is generated and nothing is sent. *)
Theorem PatchToFull_refuses_another_object (env : Env) (old : ModelRef) (old_l : nat)
    (new : ModelRef) (gen : bool → GenResult) (paranoid_ : bool) (r : R) (w : World) :
  Prefix old ≠ Prefix new ∨ MKey old ≠ MKey new →
  ∃ e w',
    PatchToFull env old old_l new gen paranoid_ r w
    = Ret (old_l, Some (ErrModel e), w')
    ∧ ("Cannot patch from " +:+ GoType old +:+ " to " +:+ GoType new
       +:+ ", or change keys from " +:+ MKey old +:+ " to " +:+ MKey new)
      ∈ Models.Messages e
    ∧ sent w' = sent w ∧ slept w' = slept w ∧ client w' = client w.
Proof.
  intros Hd. unfold PatchToFull, PatchTo.
  assert (negb (String.eqb (Prefix old) (Prefix new))
          || negb (String.eqb (MKey old) (MKey new)) = true) as ->.
  { apply orb_true_iff.
    destruct Hd as [Hd|Hd]; [left|right]; apply negb_true_iff, String.eqb_neq; done. }
  set (r1 := r_Errorf _ _).
  set (w0 := set_objs _ w).
  destruct (Do_fail_closed env (DestPtr (length (objs w))) r1 w0)
    as (e & r' & -> & Hp); [done|].
  exists e, w0. split; [reflexivity|]. split; [|done].
  eapply elem_of_prefix; [|exact Hp].
  subst r1. unfold r_Errorf, Models.Errorf. cbn [err set_err Models.Messages].
  apply elem_of_app. right. apply list_elem_of_here.
Qed.

Lemma PatchToFull_refuses_another_object_witness :
  ∃ e w',
    PatchToFull (Fixture.env_of (Fixture.flaky 0 200))
      (mkModelRef "machines" "m1" "*models.Machine") 0
      (mkModelRef "machines" "m2" "*models.Machine")
      (λ _, GenOk (inl "[]")) false (Req Fixture.a_client)
      (mkWorld Fixture.a_client [OOther "m1"] [] [])
    = Ret (0%nat, Some (ErrModel e), w')
    ∧ sent w' = [].
Proof.
  destruct (PatchToFull_refuses_another_object (Fixture.env_of (Fixture.flaky 0 200))
              (mkModelRef "machines" "m1" "*models.Machine") 0
              (mkModelRef "machines" "m2" "*models.Machine")
              (λ _, GenOk (inl "[]")) false (Req Fixture.a_client)
              (mkWorld Fixture.a_client [OOther "m1"] [] []))
    as (e & w' & H & _ & Hs & _).
  - right. discriminate.
  - exists e, w'. split; [exact H|exact Hs].
Defined.

(** ** The checksum of a blob *)

Lemma append_cons (a : ascii) (s t : string) : String a s +:+ t = String a (s +:+ t).
Proof. reflexivity. Qed.

Lemma append_empty (s : string) : s +:+ "" = s.
Proof. induction s as [|a s IH]; [done|]. by rewrite append_cons, IH. Qed.

Lemma trim_right_app (c : ascii) (a t : string) :
  occurs c a = false →
  GoStrings.trim_right c (a +:+ t) = a +:+ GoStrings.trim_right c t.
Proof.
  induction a as [|x a IH]; [done|]. cbn [occurs]. intros [Hx Ha]%orb_false_iff.
  rewrite !append_cons. cbn [GoStrings.trim_right]. rewrite (IH Ha), Hx.
  by destruct (a +:+ GoStrings.trim_right c t).
Qed.

Lemma split_first_app (c : ascii) (a b : string) :
  occurs c a = false →
  GoStrings.split_first c (a +:+ String c b) = Some (a, b).
Proof.
  induction a as [|x a IH].
  - intros _. change ("" +:+ String c b) with (String c b).
    cbn [GoStrings.split_first]. by rewrite Ascii.eqb_refl.
  - cbn [occurs]. intros [Hx Ha]%orb_false_iff.
    rewrite append_cons. cbn [GoStrings.split_first]. by rewrite Hx, (IH Ha).
Qed.

(** X14: when the vendor checksum header is missing, the checksum is
    read off the [ETag]: for a tag of the form ["<algo>:<sum>"], as
    [GetBlob] writes its [If-None-Match] validator, it is [<sum>]. *)
Theorem blobSumOf_reads_the_validator (h : gmap string (list string))
    (algo sum : string) :
  Header.Get "X-DRP-SHA256SUM" h = "" →
  Header.Get "ETag" h = GoStd.dquote +:+ algo +:+ ":" +:+ sum +:+ GoStd.dquote →
  occurs (ascii_of_nat 34) algo = false →
  occurs ":" algo = false →
  occurs (ascii_of_nat 34) sum = false →
  blobSumOf h = sum.
Proof.
  intros Hv He Ha1 Ha2 Hs. unfold blobSumOf. rewrite Hv, He. cbn [String.eqb].
  unfold GoStrings.Trim, GoStd.dquote. rewrite append_cons.
  change ("" +:+ ?x) with x.
  cbn [GoStrings.trim_left]. rewrite Ascii.eqb_refl.
  assert (GoStrings.trim_left (ascii_of_nat 34)
            (algo +:+ ":" +:+ sum +:+ String (ascii_of_nat 34) "")
          = algo +:+ ":" +:+ sum +:+ String (ascii_of_nat 34) "") as ->.
  { destruct algo as [|x algo]; [done|].
    cbn [occurs] in Ha1. apply orb_false_iff in Ha1 as [Hx _].
    rewrite append_cons. cbn [GoStrings.trim_left]. by rewrite Hx. }
  rewrite (trim_right_app _ algo) by done.
  rewrite (trim_right_app _ ":") by done.
  rewrite (trim_right_app _ sum) by done.
  change (GoStrings.trim_right (ascii_of_nat 34) (String (ascii_of_nat 34) ""))
    with EmptyString.
  rewrite append_empty.
  change (":" +:+ sum) with (String ":" sum).
  by rewrite split_first_app.
Qed.

Lemma blobSumOf_reads_the_validator_witness :
  blobSumOf {[ "Etag" := [GoStd.dquote +:+ "SHA256:0a1b" +:+ GoStd.dquote] ]} = "0a1b".
Proof.
  apply (blobSumOf_reads_the_validator _ "SHA256" "0a1b"); reflexivity.
Defined.

(** ** The catalog commands *)

(** The entry that [itemsFromCatalog] holds under a key. *)
Lemma itemsFromCatalog_lookup {Raw : Type} (remarshal : Raw → option Catalog.CatalogItem)
    (section : gmap string Raw) (name k : string) :
  Catalog.itemsFromCatalog remarshal section name !! k
  = match section !! k with
    | Some raw =>
        match remarshal raw with
        | Some item =>
            if String.eqb name "" || String.eqb name (Catalog.Name item)
            then Some item else None
        | None => None
        end
    | None => None
    end.
Proof.
  unfold Catalog.itemsFromCatalog.
  apply (map_fold_weak_ind (λ res m,
    res !! k = match m !! k with
               | Some raw =>
                   match remarshal raw with
                   | Some item =>
                       if String.eqb name "" || String.eqb name (Catalog.Name item)
                       then Some item else None
                   | None => None
                   end
               | None => None
               end)).
  - by rewrite !lookup_empty.
  - intros i x m r Hi IH. destruct (decide (i = k)) as [->|Hne].
    + rewrite lookup_insert_eq. rewrite Hi in IH.
      destruct (remarshal x) as [item|]; [|done].
      destruct (_ || _); [|done]. by rewrite lookup_insert_eq.
    + rewrite (lookup_insert_ne m) by done.
      destruct (remarshal x) as [item|]; [|done].
      destruct (_ || _); [|done]. by rewrite lookup_insert_ne.
Qed.

(** X15: [itemsFromCatalog] keeps, under its own key, exactly every
    entry of the section that [models.Remarshal] accepts and whose
    name is the one asked for; an empty name asks for every item.
    Entries that fail to remarshal are dropped silently. *)
Theorem itemsFromCatalog_selects {Raw : Type}
    (remarshal : Raw → option Catalog.CatalogItem)
    (section : gmap string Raw) (name k : string) (item : Catalog.CatalogItem) :
  Catalog.itemsFromCatalog remarshal section name !! k = Some item
  ↔ ∃ raw, section !! k = Some raw ∧ remarshal raw = Some item
           ∧ (name = "" ∨ name = Catalog.Name item).
Proof.
  rewrite itemsFromCatalog_lookup. split.
  - destruct (section !! k) as [raw|]; [|done].
    destruct (remarshal raw) as [item'|] eqn:Hr; [|done].
    destruct (_ || _) eqn:Hn; [|done]. intros [= ->].
    exists raw. split; [done|]. split; [done|].
    apply orb_true_iff in Hn as [Hn|Hn]; apply String.eqb_eq in Hn; auto.
  - intros (raw & -> & -> & Hn).
    assert (String.eqb name "" || String.eqb name (Catalog.Name item) = true) as ->;
      [|done].
    apply orb_true_iff. destruct Hn as [Hn|Hn]; [left|right]; by apply String.eqb_eq.
Qed.

Lemma firstWithVersion_spec (order : list (string * Catalog.CatalogItem))
    (version : string) :
  match Catalog.firstWithVersion order version with
  | Some v => Catalog.Version v = version ∧ ∃ k, (k, v) ∈ order
  | None => ∀ k v, (k, v) ∈ order → Catalog.Version v ≠ version
  end.
Proof.
  induction order as [|[k v] order IH]; cbn [Catalog.firstWithVersion].
  - intros k v Hin. by apply elem_of_nil in Hin.
  - destruct (String.eqb (Catalog.Version v) version) eqn:Hv.
    + apply String.eqb_eq in Hv. split; [done|]. exists k. apply list_elem_of_here.
    + apply String.eqb_neq in Hv.
      destruct (Catalog.firstWithVersion order version) as [v'|].
      * destruct IH as [? [k' ?]]. split; [done|]. exists k'. by apply elem_of_cons; right.
      * intros k' v' [[= -> ->]|Hin]%elem_of_cons; [done|]. by eapply IH.
Qed.

(** X16: in whatever order Go ranges over the map, [oneItem] returns
    an item of the wanted name and version that the section holds, if
    the section holds any, and nil only if it holds none.  With an
    empty name, an item of any name will do. *)
Theorem oneItem_finds_a_version {Raw : Type}
    (remarshal : Raw → option Catalog.CatalogItem)
    (range : gmap string Catalog.CatalogItem → list (string * Catalog.CatalogItem))
    (section : gmap string Raw) (name version : string) :
  (∀ m, range m ≡ₚ map_to_list m) →
  match Catalog.oneItem remarshal range section name version with
  | Some v =>
      Catalog.Version v = version
      ∧ ∃ k raw, section !! k = Some raw ∧ remarshal raw = Some v
                 ∧ (name = "" ∨ name = Catalog.Name v)
  | None =>
      ∀ k raw v, section !! k = Some raw → remarshal raw = Some v →
                 name = "" ∨ name = Catalog.Name v →
                 Catalog.Version v ≠ version
  end.
Proof.
  intros Hrange. unfold Catalog.oneItem.
  pose proof (firstWithVersion_spec
                (range (Catalog.itemsFromCatalog remarshal section name)) version) as H.
  assert (∀ k v, (k, v) ∈ range (Catalog.itemsFromCatalog remarshal section name)
                 ↔ ∃ raw, section !! k = Some raw ∧ remarshal raw = Some v
                          ∧ (name = "" ∨ name = Catalog.Name v)) as Hin.
  { intros k v. rewrite Hrange, elem_of_map_to_list, itemsFromCatalog_lookup. split.
    - destruct (section !! k) as [raw|]; [|done].
      destruct (remarshal raw) as [item'|] eqn:Hr; [|done].
      destruct (_ || _) eqn:Hn; [|done]. intros [= ->].
      exists raw. split; [done|]. split; [done|].
      apply orb_true_iff in Hn as [Hn|Hn]; apply String.eqb_eq in Hn; auto.
    - intros (raw & -> & -> & Hn).
      assert (String.eqb name "" || String.eqb name (Catalog.Name v) = true) as ->;
        [|done].
      apply orb_true_iff. destruct Hn as [Hn|Hn]; [left|right]; by apply String.eqb_eq. }
  destruct (Catalog.firstWithVersion _ version) as [v|].
  - destruct H as [Hv [k Hk]]. split; [done|]. exists k. by apply Hin.
  - intros k raw v Hs Hr Hn. apply (H k). apply Hin. by exists raw.
Qed.

Lemma oneItem_finds_a_version_witness :
  match Catalog.oneItem id map_to_list Sample.a_section "drpcli" "v4.2.0" with
  | Some v =>
      Catalog.Version v = "v4.2.0"
      ∧ ∃ k raw, Sample.a_section !! k = Some raw ∧ id raw = Some v
                 ∧ ("drpcli" = "" ∨ "drpcli" = Catalog.Name v)
  | None =>
      ∀ k raw v, Sample.a_section !! k = Some raw → id raw = Some v →
                 "drpcli" = "" ∨ "drpcli" = Catalog.Name v →
                 Catalog.Version v ≠ "v4.2.0"
  end.
Proof.
  apply (oneItem_finds_a_version id map_to_list Sample.a_section "drpcli" "v4.2.0").
  intros m. reflexivity.
Defined.






(** ** Uploading a blob *)

(** The descriptor that [PostBlobExplode] executes for a plain reader. *)
Lemma PostBlobExplode_descriptor (env : Env) (d : string) (explode : bool)
    (at_ : list string) (w : World) (u : URL) (l : nat) :
  UrlForProxy env (client w) (urlProxy (client w))
    [path_Join env ["/"; path_Join env at_]] = inl u →
  ∃ h,
    accept_headers (DestPtr l)
      (let r := UrlFor env (client w) [path_Join env ["/"; path_Join env at_]]
                  (Post (ArgReader d) (Req (client w))) in
       if explode then Params ["explode"; "true"] r else r)
    = mkR "POST" (Some u) h (BodyReader d) None None
        (Models.mkError "" "" "CLIENT_ERROR" [] 0 false) false false
        (c_traceLvl (client w)) (c_traceToken (client w)) (urlProxy (client w))
        (if explode then Values.Set_ "explode" "true" ∅ else ∅) CtxBackground "".
Proof.
  intros Hu. unfold UrlFor.
  change (proxy (Post (ArgReader d) (Req (client w)))) with (urlProxy (client w)).
  rewrite Hu. cbv zeta. destruct explode; eexists; reflexivity.
Qed.

(** X18: an upload from a reader that cannot seek is never retried:
    when the first attempt fails on an open client with retry on,
    [PostBlobExplode] returns the error after that one request,
    without waiting. *)
Theorem PostBlobExplode_reader_is_sent_once (env : Env) (d : string) (explode : bool)
    (at_ : list string) (w : World) (u : URL) :
  closed (client w) = false →
  RoundTripTimeout (client w) ≤ 0 →
  UrlForProxy env (client w) (urlProxy (client w))
    [path_Join env ["/"; path_Join env at_]] = inl u →
  (∀ cx u', http_NewRequest env cx "POST" u' = None) →
  fails_at env (length (sent w)) →
  ∃ o e w',
    PostBlobExplode env (ArgReader d) explode at_ w = Ret (o, Some e, w')
    ∧ length (sent w') = S (length (sent w))
    ∧ slept w' = slept w.
Proof.
  intros Hc Ht Hu Hq Hf. unfold PostBlobExplode, Do.
  set (l := length (objs w)). set (w0 := set_objs _ w).
  destruct (PostBlobExplode_descriptor env d explode at_ w u l Hu) as [h Hr].
  cbv zeta in Hr. rewrite Hr. clear Hr.
  set (rr := mkR _ _ _ _ _ _ _ _ _ _ _ _ _ _ _).
  destruct (Response_enters_loop env rr w0) as (u' & r4 & -> & Hb & Hn & Hx & Hm & He).
  { split; [done|]. split; [done|]. intros u'. apply Hq. }
  { done. }
  { split; [done|]. cbn [client set_objs w0].
    apply andb_false_iff. left. rewrite Z.gtb_ltb. apply Z.ltb_ge. lia. }
  unfold timeouts.
  destruct (retryLoop_no_rewind env 1 [1; 2; 3; 5; 8] u' None None r4 w0)
    as (e & r5 & w5 & -> & _ & Hs & Hsl & _ & _).
  { intros u''. rewrite Hx, Hm. apply Hq. }
  { by rewrite Hb. }
  { by rewrite Hb. }
  { exact Hf. }
  cbn [after_loop]. eexists _, _, _. split; [reflexivity|]. done.
Qed.

Lemma PostBlobExplode_reader_is_sent_once_witness :
  ∃ o e w',
    PostBlobExplode (Fixture.env_of (Fixture.flaky 1 201)) (ArgReader "blob") true
      ["files"; "a.iso"] (Fixture.a_world Fixture.a_client)
    = Ret (o, Some e, w')
    ∧ length (sent w') = 1%nat
    ∧ slept w' = [].
Proof.
  apply (PostBlobExplode_reader_is_sent_once (Fixture.env_of (Fixture.flaky 1 201))
           "blob" true ["files"; "a.iso"] (Fixture.a_world Fixture.a_client)
           (mkURL "https://127.0.0.1:8092/api/v3///files/a.iso" "")).
  - reflexivity.
  - vm_compute. discriminate.
  - reflexivity.
  - reflexivity.
  - intros q. eexists. reflexivity.
Defined.

(** X19: the request that [PostBlobExplode] sends on an open client,
    when the server answers it: a [POST] of the reader to the joined
    path, whose query is the encoding of [explode=true] when [explode]
    is set and of no parameter otherwise; it is the only request. *)
Theorem PostBlobExplode_request (env : Env) (d : string) (explode : bool)
    (at_ : list string) (w : World) (u : URL) :
  closed (client w) = false →
  UrlForProxy env (client w) (urlProxy (client w))
    [path_Join env ["/"; path_Join env at_]] = inl u →
  (∀ cx u', http_NewRequest env cx "POST" u' = None) →
  answers_quietly env (length (sent w)) →
  ∃ o e w' q,
    PostBlobExplode env (ArgReader d) explode at_ w = Ret (o, e, w')
    ∧ sent w' = (sent w ++ [q])%list
    ∧ reqMethod q = "POST"
    ∧ reqBody q = BodyReader d
    ∧ reqURL q = mkURL (Raw u)
                   (url_Encode env (if explode then {[ "explode" := ["true"] ]} else ∅)).
Proof.
  intros Hc Hu Hq Ha. unfold PostBlobExplode, Do.
  set (l := length (objs w)). set (w0 := set_objs _ w).
  destruct (PostBlobExplode_descriptor env d explode at_ w u l Hu) as [h Hr].
  cbv zeta in Hr. rewrite Hr. clear Hr.
  set (rr := mkR _ _ _ _ _ _ _ _ _ _ _ _ _ _ _).
  destruct (Response_answered env rr w0 u)
    as (rsp & q & r' & w' & -> & _ & Hqm & Hqb & Hqu & _ & _ & Hs & _);
    [done|done|done|exact Hq|exact Ha|].
  destruct (decode_response env (DestPtr l) rsp r' w') as [[[e d'] r''] w''] eqn:Hdec.
  apply decode_response_frame in Hdec as (_ & Hs' & _).
  eexists _, e, w'', q. split; [reflexivity|]. split; [by rewrite Hs', Hs|].
  split; [done|]. split; [done|]. rewrite Hqu. cbn [params rr].
  by destruct explode.
Qed.

Lemma PostBlobExplode_request_witness :
  ∃ o e w' q,
    PostBlobExplode (Fixture.env_of (Fixture.flaky 0 201)) (ArgReader "blob") false
      ["files"; "a.iso"] (Fixture.a_world Fixture.a_client)
    = Ret (o, e, w')
    ∧ sent w' = [q]
    ∧ reqMethod q = "POST"
    ∧ reqBody q = BodyReader "blob".
Proof.
  destruct (PostBlobExplode_request (Fixture.env_of (Fixture.flaky 0 201))
              "blob" false ["files"; "a.iso"] (Fixture.a_world Fixture.a_client)
              (mkURL "https://127.0.0.1:8092/api/v3///files/a.iso" ""))
    as (o & e & w' & q & H & Hs & Hm & Hb & _).
  - reflexivity.
  - reflexivity.
  - reflexivity.
  - intros q. eexists. reflexivity.
  - exists o, e, w', q. split; [exact H|]. split; [exact Hs|]. split; [exact Hm|exact Hb].
Defined.

(** ** Downloading a blob into a file *)

(** The descriptor that [GetBlob] executes. *)
Lemma GetBlob_descriptor (env : Env) (dest : Sink) (shasum : string)
    (at_ : list string) (w : World) (u : URL) :
  UrlForProxy env (client w) (urlProxy (client w))
    [path_Join env ["/"; path_Join env at_]] = inl u →
  ∃ h,
    accept_headers (DestWriter dest)
      (let req := UrlFor env (client w) [path_Join env ["/"; path_Join env at_]]
                    (Req (client w)) in
       if negb (String.eqb shasum "")
       then Headers ["If-None-Match";
                     GoStd.dquote +:+ "SHA256:" +:+ shasum +:+ GoStd.dquote] req
       else req)
    = set_header h (set_uri (Some u) (Req (client w))).
Proof.
  intros Hu. unfold UrlFor.
  change (proxy (Req (client w))) with (urlProxy (client w)).
  rewrite Hu. cbv zeta. destruct (negb _); eexists; reflexivity.
Qed.

Lemma substring_none (n : nat) (s : string) : substring n 0 s = "".
Proof.
  revert s. induction n as [|n IH]; intros s; [by destruct s|].
  destruct s as [|a s]; [done|]. apply IH.
Qed.

Lemma substring_app_length (a b : string) :
  substring 0 (String.length a) (a +:+ b) = a.
Proof.
  induction a as [|x a IH]; [by destruct b|].
  rewrite append_cons. cbn [String.length substring]. by rewrite IH.
Qed.

Lemma length_zero (s : string) : String.length s = 0%nat → s = "".
Proof. by destruct s. Qed.

(** X20: [GetBlob] into a file whose cursor is at the start, on an
    open client whose request is answered with a status below 300 and
    a body that reads without error: the file then holds exactly the
    body, whether what it held before was shorter, longer or as long,
    and [GetBlob] returns nil after the one request. *)
Theorem GetBlob_replaces_the_file (env : Env) (dest : Sink) (f : FileOracle)
    (at_ : list string) (w : World) (u : URL) (data : string) :
  kind dest = OsFile f →
  offset dest = 0%nat →
  statErr f = false →
  truncErr f = None →
  writeErr dest = None →
  closed (client w) = false →
  UrlForProxy env (client w) (urlProxy (client w))
    [path_Join env ["/"; path_Join env at_]] = inl u →
  (∀ cx u', http_NewRequest env cx "GET" u' = None) →
  (∀ q, ∃ rsp, roundTrip env (length (sent w)) q = mkAttempt (inl rsp) false
               ∧ StatusCode rsp < 300
               ∧ respReadErr rsp = None
               ∧ respBody rsp = data) →
  ∃ dest' w',
    GetBlob env dest at_ w = Ret (None, dest', w')
    ∧ content dest' = data
    ∧ length (sent w') = S (length (sent w)).
Proof.
  intros Hk Ho Hst Htr Hwe Hc Hu Hq Ha. unfold GetBlob, Do. rewrite Hk, Hst.
  destruct (GetBlob_descriptor env dest
              (match regenErr f with Some _ => mtsString f | None => "" end)
              at_ w u Hu) as [h Hr].
  cbv zeta in Hr. rewrite Hr. clear Hr.
  destruct (Response_answered env (set_header h (set_uri (Some u) (Req (client w)))) w u)
    as (rsp & q & r' & w' & -> & Hrt & _ & _ & _ & _ & He & Hs & _);
    [done|done|done|exact Hq| |].
  { intros q. destruct (Ha q) as (rsp & Hrsp & _). by exists rsp. }
  destruct (Ha q) as (rsp' & Hrsp & Hcode & Hre & Hbody). rewrite Hrt in Hrsp.
  injection Hrsp as <-.
  assert (length (sent w') = S (length (sent w))) as Hlen.
  { rewrite Hs, length_app. cbn. lia. }
  unfold decode_response.
  replace (StatusCode rsp >=? 400) with false
    by (symmetry; rewrite Z.geb_leb; apply Z.leb_gt; lia).
  rewrite (proj2 (Z.eqb_neq (StatusCode rsp) 304)) by lia.
  rewrite (proj2 (Z.ltb_lt (StatusCode rsp) 300)) by lia.
  unfold io_Copy. rewrite Hbody, Hre, Hwe.
  assert (Models.HasError (err (set_eTag (Header.Get "ETag" (respHeader rsp)) r'))
          = None) as Herr.
  { cbn [err set_eTag]. by rewrite He. }
  destruct (String.eqb data "") eqn:Hd.
  - apply String.eqb_eq in Hd. subst data.
    change (r_AddError None ?r) with r. rewrite Herr. cbn [option_map].
    rewrite Hk, Ho.
    destruct (negb (0 =? String.length (content dest))%nat) eqn:Hsz.
    + rewrite Htr. eexists _, _. split; [reflexivity|]. split; [|done].
      cbn [content sink_truncate]. rewrite Hd. by destruct (content dest).
    + eexists _, _. split; [reflexivity|]. split; [|done].
      apply negb_false_iff, Nat.eqb_eq in Hsz. rewrite Hd. by apply length_zero.
  - change (r_AddError None ?r) with r. rewrite Herr. cbn [option_map].
    unfold sink_write. cbv zeta. rewrite !Ho. cbn [kind offset content Nat.add].
    rewrite Hk.
    destruct (negb (String.length data =? String.length (content dest))%nat) eqn:Hsz.
    + rewrite Htr. eexists _, _. split; [reflexivity|]. split; [|done].
      cbn [content sink_truncate]. rewrite (substring_none 0).
      change ("" +:+ ?x) with x. apply substring_app_length.
    + eexists _, _. split; [reflexivity|]. split; [|done].
      apply negb_false_iff, Nat.eqb_eq in Hsz. cbn [content].
      rewrite (substring_none 0). change ("" +:+ ?x) with x.
      by rewrite <- Hsz, Nat.sub_diag, substring_none, append_empty.
Qed.

Lemma GetBlob_replaces_the_file_witness :
  ∃ dest' w',
    GetBlob (Fixture.env_of (Sample.always (Sample.plain 200 "new")))
      (Fixture.a_file (mkFileOracle false None "" None)) ["files"; "a.iso"]
      (Fixture.a_world Fixture.a_client)
    = Ret (None, dest', w')
    ∧ content dest' = "new".
Proof.
  destruct (GetBlob_replaces_the_file
              (Fixture.env_of (Sample.always (Sample.plain 200 "new")))
              (Fixture.a_file (mkFileOracle false None "" None))
              (mkFileOracle false None "" None) ["files"; "a.iso"]
              (Fixture.a_world Fixture.a_client)
              (mkURL "https://127.0.0.1:8092/api/v3///files/a.iso" "") "new")
    as (dest' & w' & H & Hc & _).
  - reflexivity.
  - reflexivity.
  - reflexivity.
  - reflexivity.
  - reflexivity.
  - reflexivity.
  - reflexivity.
  - reflexivity.
  - intros q. eexists. split; [reflexivity|]. split; [reflexivity|]. split; reflexivity.
  - exists dest', w'. split; [exact H|exact Hc].
Defined.



(** ** An [Info] that needed a retry *)

(** X22: the client holds no [Info] yet, is open and retries.  When
    the first attempt of [Info()] fails and the second is answered,
    whatever the answer, the retry has dropped the pointer that
    [Info()] had cached before it sent anything: after the call the
    client holds no [Info], so the next call will fetch again.  The
    call took two requests and the first wait of one second; the
    pointer it returns is nil if Go reads [c.info] after the call. *)
Theorem Info_retried_is_not_cached (env : Env) (w : World) (u : URL) :
  info (client w) = None →
  closed (client w) = false →
  RoundTripTimeout (client w) ≤ 0 →
  UrlForProxy env (client w) (urlProxy (client w)) ["info"] = inl u →
  (∀ cx u', http_NewRequest env cx "GET" u' = None) →
  fails_at env (length (sent w)) →
  answers_quietly env (S (length (sent w))) →
  ∃ p e w2,
    Info env w = Ret (p, e, w2)
    ∧ info (client w2) = None
    ∧ p = (if late_operand_read env then None else Some (length (objs w)))
    ∧ length (sent w2) = S (S (length (sent w)))
    ∧ slept w2 = (slept w ++ [1])%list.
Proof.
  intros Hi Hc Ht Hu Hq Hf Ha. unfold Info. rewrite Hi.
  set (l := length (objs w)).
  set (w1 := set_client _ _).
  assert (UrlFor env (client w1) ["info"] (Req (client w1))
          = set_uri (Some u) (Req (client w1))) as ->.
  { unfold UrlFor. cbn [proxy Req]. subst w1.
    cbn [client set_client set_objs urlProxy set_info].
    change (UrlForProxy env (set_info ?x ?y) ?p ?a) with (UrlForProxy env y p a).
    by rewrite Hu. }
  unfold Do.
  set (rr := accept_headers _ _).
  destruct (Response_enters_loop env rr w1) as (u' & r4 & -> & Hb & Hn & Hx & Hm & He).
  { split; [done|]. split; [done|]. intros u'. apply Hq. }
  { done. }
  { split; [done|]. apply andb_false_iff. left.
    change (RoundTripTimeout (client w1)) with (RoundTripTimeout (client w)).
    rewrite Z.gtb_ltb. apply Z.ltb_ge. lia. }
  unfold timeouts.
  destruct (retryLoop_failed_attempt env 1 [1; 2; 3; 5; 8] u' None None r4 w1)
    as (e1 & r5 & w5 & -> & (_ & _ & Hq5) & He5 & Hc5 & Hs5 & Hsl5 & _ & Hcl5).
  { split; [by rewrite Hn|]. split; [left; by rewrite Hb|].
    intros u''. rewrite Hx, Hm. apply Hq. }
  { done. }
  { exact Hf. }
  rewrite Hb in Hcl5. change (body rr) with BodyNone in Hcl5. cbv iota in Hcl5.
  destruct (retryLoop_answered_quietly env 1 [2; 3; 5; 8] u' None (Some e1) r5 w5)
    as (rsp & r6 & w6 & -> & _ & _ & He6 & Hs6 & Hsl6 & Hcl6 & _).
  { apply Hq5. }
  { rewrite Hs5. exact Ha. }
  cbn [after_loop].
  assert (Models.HasError
            (err (set_eTag (Header.Get "ETag" (respHeader rsp))
                    (set_Resp (Some rsp) r6))) = None) as ->.
  { cbn [err set_eTag set_Resp]. by rewrite He6, He5, He. }
  destruct (decode_response env (DestPtr l) rsp _ w6) as [[[e d'] r''] w''] eqn:Hdec.
  apply decode_response_frame in Hdec as (Hcl7 & Hs7 & Hsl7).
  assert (info (client w'') = None) as Hinfo by (by rewrite Hcl7, Hcl6, Hcl5).
  eexists _, e, w''. split; [reflexivity|]. split; [done|].
  split; [by rewrite Hinfo|]. split.
  - rewrite Hs7, Hs6, length_app, Hs5. cbn. lia.
  - by rewrite Hsl7, Hsl6, Hsl5.
Qed.

Lemma Info_retried_is_not_cached_witness :
  ∃ e w2,
    Info (Fixture.env_of (Fixture.flaky 1 200)) (Fixture.a_world Fixture.a_client)
    = Ret (None, e, w2)
    ∧ info (client w2) = None
    ∧ length (sent w2) = 2%nat.
Proof.
  destruct (Info_retried_is_not_cached (Fixture.env_of (Fixture.flaky 1 200))
              (Fixture.a_world Fixture.a_client)
              (mkURL "https://127.0.0.1:8092/api/v3/info" ""))
    as (p & e & w2 & H & Hi & Hp & Hs & _).
  - reflexivity.
  - reflexivity.
  - vm_compute. discriminate.
  - reflexivity.
  - reflexivity.
  - intros q. eexists. reflexivity.
  - intros q. eexists. reflexivity.
  - exists e, w2. rewrite H, Hp. split; [reflexivity|]. split; [exact Hi|exact Hs].
Defined.

(** ** What [updateLocal] uploads for a plugin provider *)





(** ** What every request carries *)

(** Every request of the loop carries headers that satisfy [Q], if the
    descriptor's headers satisfy [P] and [Authorize] turns [P] into
    [P] and [Q]. *)
Lemma retryLoop_headers (env : Env) (P Q : gmap string (list string) → Prop)
    (ts : list Z) :
  (∀ c h, P h → P (Authorize env c h) ∧ Q (Authorize env c h)) →
  ∀ (u : URL) (resp0 : option HttpResponse) (err0 : option string) (r : R) (w : World),
    P (header r) →
    Forall (λ q, Q (reqHeader q)) (sent w) →
    Forall (λ q, Q (reqHeader q))
      (sent (exit_world (retryLoop env ts u resp0 err0 r w))).
Proof.
  intros HA.
  induction ts as [|waitFor rest IH]; intros u resp0 err0 r w Hh Hw; [done|].
  cbn [retryLoop].
  destruct (http_NewRequest env (ctx r) (method r) u); [done|].
  set (h := Authorize env (client w) (header r)).
  destruct (HA (client w) (header r) Hh) as [HP HQ]. fold h in HP, HQ.
  set (req := mkRequest _ _ _ _ _).
  assert (Forall (λ q, Q (reqHeader q)) (sent w ++ [req])) as Hw'.
  { apply Forall_app. split; [done|]. by apply Forall_singleton. }
  repeat case_match; cbn [exit_world]; try done; by apply IH.
Qed.

Lemma Response_headers (env : Env) (P Q : gmap string (list string) → Prop)
    (r : R) (w : World) :
  (∀ c h, P h → P (Authorize env c h) ∧ Q (Authorize env c h)) →
  P (let h3 := Header.Add "Cache-Control" "no-store" (header r) in
     if negb (String.eqb (traceLvl r) "")
     then Header.Add "X-Log-Token" (traceToken r)
            (Header.Add "X-Log-Request" (traceLvl r) h3)
     else h3) →
  Forall (λ q, Q (reqHeader q)) (sent w) →
  match world_after (Response env r w) with
  | Some w' => Forall (λ q, Q (reqHeader q)) (sent w')
  | None => True
  end.
Proof.
  intros HA Hh Hw. unfold Response.
  destruct (uri r) as [u0|]; [|done].
  set (r1 := if _ : bool then _ else r).
  assert (header r1 = header r ∧ traceLvl r1 = traceLvl r
          ∧ traceToken r1 = traceToken r) as (Hh1 & Hl1 & Ht1).
  { subst r1. by destruct (_ && _). }
  clearbody r1. set (u := mkURL _ _). clearbody u.
  destruct (closed (client w)); [done|].
  destruct (Models.ContainsError _); [done|].
  set (r4 := if negb _ then _ else _).
  assert (P (header r4)) as Hh4.
  { subst r4. cbv zeta in Hh.
    change (traceLvl (Headers _ (set_uri _ r1))) with (traceLvl r1).
    change (traceToken (Headers _ (set_uri _ r1))) with (traceToken r1).
    rewrite Hl1, Ht1.
    destruct (negb (String.eqb (traceLvl r) "")); rewrite !header_Headers_pair;
      change (header (set_uri ?x r1)) with (header r1); by rewrite Hh1. }
  clearbody r4.
  pose proof (retryLoop_headers env P Q timeouts HA u None None r4 w Hh4 Hw) as HL.
  by destruct (retryLoop env timeouts u None None r4 w)
    as [e r5 w5|[rsp|] [e|] r5 w5].
Qed.

Lemma Authorize_sets_credentials (env : Env) (c : Client)
    (h : gmap string (list string)) :
  Header.Get "Authorization" (Authorize env c h) ≠ "".
Proof.
  unfold Authorize.
  destruct (String.eqb (Header.Get "Authorization" h) "") eqn:Hh.
  - destruct (negb _); by rewrite Get_Set.
  - by apply String.eqb_neq.
Qed.

Lemma Authorize_keeps_others (env : Env) (c : Client)
    (h : gmap string (list string)) (k : string) :
  k ≠ "Authorization" → Authorize env c h !! k = h !! k.
Proof.
  intros Hk. unfold Authorize, Header.Set_.
  repeat case_match; try done; by rewrite lookup_insert_ne.
Qed.

(** X24: every request that [Response] hands to the transport, the
    retries included, forbids caching ([Cache-Control] holds
    [no-store]) and carries an [Authorization] header. *)
Theorem requests_are_uncached_and_authorized (env : Env) (r : R) (w : World) :
  Forall uncached_and_authorized (sent w) →
  match world_after (Response env r w) with
  | Some w' => Forall uncached_and_authorized (sent w')
  | None => True
  end.
Proof.
  intros Hw.
  apply (Response_headers env
           (λ h, "no-store" ∈ default [] (h !! "Cache-Control"))
           (λ h, "no-store" ∈ default [] (h !! "Cache-Control")
                 ∧ Header.Get "Authorization" h ≠ "")); [| |exact Hw].
  - intros c h Hh.
    assert ("no-store" ∈ default [] (Authorize env c h !! "Cache-Control")) as Hc.
    { by rewrite Authorize_keeps_others. }
    split; [done|]. split; [done|]. apply Authorize_sets_credentials.
  - cbv zeta.
    assert ("no-store"
            ∈ default [] (Header.Add "Cache-Control" "no-store" (header r)
                          !! "Cache-Control")) as Hc.
    { unfold Header.Add.
      change (GoStd.CanonicalMIMEHeaderKey "Cache-Control") with "Cache-Control".
      rewrite lookup_insert_eq. cbn [default]. apply elem_of_app. right.
      apply list_elem_of_here. }
    destruct (negb _); [|done].
    unfold Header.Add at 1 2.
    by rewrite !lookup_insert_ne.
Qed.

Lemma requests_are_uncached_and_authorized_witness :
  match world_after
          (Response (Fixture.env_of (Fixture.flaky 2 200))
             (UrlFor (Fixture.env_of (Fixture.flaky 2 200)) Fixture.a_client ["info"]
                (Req Fixture.a_client))
             (Fixture.a_world Fixture.a_client)) with
  | Some w' => Forall uncached_and_authorized (sent w')
  | None => True
  end.
Proof.
  apply requests_are_uncached_and_authorized. constructor.
Defined.

(** X25: with a trace level set, every request that [Response] hands
    to the transport carries the level in [X-Log-Request] and the
    token in [X-Log-Token]. *)
Theorem Trace_marks_every_request (env : Env) (r : R) (w : World) :
  traceLvl r ≠ "" →
  Forall (traced (traceLvl r) (traceToken r)) (sent w) →
  match world_after (Response env r w) with
  | Some w' => Forall (traced (traceLvl r) (traceToken r)) (sent w')
  | None => True
  end.
Proof.
  intros Hl Hw.
  apply (Response_headers env
           (λ h, traceLvl r ∈ default [] (h !! "X-Log-Request")
                 ∧ traceToken r ∈ default [] (h !! "X-Log-Token"))
           (λ h, traceLvl r ∈ default [] (h !! "X-Log-Request")
                 ∧ traceToken r ∈ default [] (h !! "X-Log-Token"))); [| |exact Hw].
  - intros c h Hh. by rewrite !Authorize_keeps_others.
  - cbv zeta. rewrite (proj2 (String.eqb_neq _ _) Hl). cbn [negb].
    split; unfold Header.Add at 1 2;
      change (GoStd.CanonicalMIMEHeaderKey "X-Log-Token") with "X-Log-Token";
      change (GoStd.CanonicalMIMEHeaderKey "X-Log-Request") with "X-Log-Request".
    + rewrite lookup_insert_ne by done. rewrite lookup_insert_eq. cbn [default].
      apply elem_of_app. right. apply list_elem_of_here.
    + rewrite lookup_insert_eq. cbn [default].
      apply elem_of_app. right. apply list_elem_of_here.
Qed.

Lemma Trace_marks_every_request_witness :
  match world_after
          (Response (Fixture.env_of (Fixture.flaky 2 200))
             (UrlFor (Fixture.env_of (Fixture.flaky 2 200)) Fixture.a_client ["info"]
                (TraceToken "t1" (Trace "debug" (Req Fixture.a_client))))
             (Fixture.a_world Fixture.a_client)) with
  | Some w' => Forall (traced "debug" "t1") (sent w')
  | None => True
  end.
Proof.
  apply (Trace_marks_every_request (Fixture.env_of (Fixture.flaky 2 200))
           (UrlFor (Fixture.env_of (Fixture.flaky 2 200)) Fixture.a_client ["info"]
              (TraceToken "t1" (Trace "debug" (Req Fixture.a_client))))).
  - discriminate.
  - constructor.
Defined.

(** ** The tables of the catalog commands *)

Lemma collect_from (again : Catalog.CatalogItem → option Catalog.CatalogItem)
    (n : string) (order : list (string * Catalog.CatalogItem)) :
  ∀ acc : gmap string Catalog.catItem,
    Catalog.Versions
      <$> (fold_left (λ items kv, Catalog.addVersion again items kv.2) order acc !! n)
    = match Catalog.Versions <$> (acc !! n), Catalog.versions_of again n order with
      | None, [] => None
      | None, vs => Some vs
      | Some a, vs => Some (a ++ vs)%list
      end.
Proof.
  induction order as [|[k v] order IH]; intros acc; cbn [fold_left Catalog.versions_of].
  - destruct (acc !! n); cbn; [by rewrite app_nil_r|done].
  - rewrite IH. unfold Catalog.addVersion. cbn [snd].
    destruct (again v) as [item|]; [|done].
    destruct (String.eqb_spec (Catalog.Name item) n) as [->|Hne].
    + destruct (acc !! n) as [cat|] eqn:Hn.
      * rewrite lookup_insert_eq. cbn. by rewrite <- app_assoc.
      * rewrite lookup_insert_eq. cbn. by destruct (Catalog.versions_of again n order).
    + by destruct (acc !! Catalog.Name item); rewrite lookup_insert_ne.
Qed.

Lemma versions_of_Permutation (again : Catalog.CatalogItem → option Catalog.CatalogItem)
    (n : string) (l1 l2 : list (string * Catalog.CatalogItem)) :
  l1 ≡ₚ l2 → Catalog.versions_of again n l1 ≡ₚ Catalog.versions_of again n l2.
Proof.
  induction 1 as [|[k v] l1 l2 _ IH|[k1 v1] [k2 v2] l|l1 l2 l3 _ IH1 _ IH2];
    cbn [Catalog.versions_of].
  - done.
  - destruct (again v) as [item|]; [|done]. destruct (String.eqb _ n); by rewrite ?IH.
  - destruct (again v1) as [i1|], (again v2) as [i2|]; try done;
      repeat destruct (String.eqb _ n); try done. apply perm_swap.
  - by etrans.
Qed.

Lemma merge_sort_Permutation_eq (l1 l2 : list string) :
  l1 ≡ₚ l2 → merge_sort String.le l1 = merge_sort String.le l2.
Proof.
  intros Hp. apply (Sorted_unique String.le).
  - apply Sorted_merge_sort, _.
  - apply Sorted_merge_sort, _.
  - by rewrite !merge_sort_Permutation.
Qed.

(** X26: the versions that the [items] and [item show] tables list
    for a name do not depend on the order in which Go ranges over the
    map of items: they are the versions of all items of that name that
    remarshal, sorted as [sort.Strings] sorts; a name that no such
    item has gets no row. *)
Theorem itemsTable_versions (again : Catalog.CatalogItem → option Catalog.CatalogItem)
    (range : gmap string Catalog.CatalogItem → list (string * Catalog.CatalogItem))
    (found : gmap string Catalog.CatalogItem) (n : string) :
  (∀ m, range m ≡ₚ map_to_list m) →
  Catalog.Versions <$> (Catalog.itemsTable again range found !! n)
  = match Catalog.versions_of again n (map_to_list found) with
    | [] => None
    | vs => Some (merge_sort String.le vs)
    end
  ∧ ∀ row, Catalog.itemsTable again range found !! n = Some row →
           Sorted String.le (Catalog.Versions row).
Proof.
  intros Hrange. unfold Catalog.itemsTable, Catalog.sortVersions, Catalog.collect.
  rewrite lookup_fmap. split.
  - rewrite <- option_fmap_compose.
    change (Catalog.Versions ∘ _)
      with (merge_sort String.le ∘ Catalog.Versions).
    rewrite option_fmap_compose, collect_from, lookup_empty. cbn [fmap option_fmap option_map].
    pose proof (versions_of_Permutation again n _ _ (Hrange found)) as Hp.
    destruct (Catalog.versions_of again n (range found)) as [|x xs] eqn:H1.
    + apply Permutation_nil_l in Hp. by rewrite <- Hp.
    + destruct (Catalog.versions_of again n (map_to_list found)) as [|y ys] eqn:H2.
      * by apply Permutation_nil_r in Hp.
      * cbn [fmap option_fmap option_map]. f_equal. by apply merge_sort_Permutation_eq.
  - intros row Hrow.
    destruct (fold_left _ _ _ !! n) as [cat|]; [|done].
    cbn in Hrow. injection Hrow as <-. cbn [Catalog.Versions].
    apply Sorted_merge_sort, _.
Qed.

Lemma itemsTable_versions_witness :
  Catalog.Versions
    <$> (Catalog.itemsTable Some map_to_list
           {[ "drpcli-v4.2.0" := Sample.drpcli_item;
              "drpcli-tip" := Catalog.mkItem "drpcli" "tip" "DRPCLI" "" ∅ ]} !! "drpcli")
  = Some ["tip"; "v4.2.0"].
Proof.
  destruct (itemsTable_versions Some map_to_list
              {[ "drpcli-v4.2.0" := Sample.drpcli_item;
                 "drpcli-tip" := Catalog.mkItem "drpcli" "tip" "DRPCLI" "" ∅ ]} "drpcli")
    as [-> _].
  - intros m. reflexivity.
  - vm_compute. reflexivity.
Defined.

Lemma versions_of_elem (again : Catalog.CatalogItem → option Catalog.CatalogItem)
    (k : string) (v item : Catalog.CatalogItem)
    (l : list (string * Catalog.CatalogItem)) :
  (k, v) ∈ l → again v = Some item →
  Catalog.Version item ∈ Catalog.versions_of again (Catalog.Name item) l.
Proof.
  intros Hin Ha. induction l as [|[k' v'] l IH]; [by apply elem_of_nil in Hin|].
  cbn [Catalog.versions_of].
  apply elem_of_cons in Hin as [[= <- <-]|Hin].
  - rewrite Ha, String.eqb_refl. apply list_elem_of_here.
  - destruct (again v') as [i'|]; [|by apply IH].
    destruct (String.eqb (Catalog.Name i') (Catalog.Name item)); [|by apply IH].
    apply elem_of_cons. right. by apply IH.
Qed.

Lemma versions_of_none (again : Catalog.CatalogItem → option Catalog.CatalogItem)
    (n : string) (l : list (string * Catalog.CatalogItem)) :
  (∀ k v, (k, v) ∈ l → again v = None) → Catalog.versions_of again n l = [].
Proof.
  induction l as [|[k' v'] l IH]; intros Hall; [done|].
  cbn [Catalog.versions_of]. rewrite (Hall k' v') by apply list_elem_of_here.
  apply IH. intros k v Hin. apply (Hall k). by apply elem_of_cons; right.
Qed.

(** X27: [item show] fails with "No item named ... in the catalog"
    exactly when none of the items found remarshals; otherwise it
    shows the row of the name, which is the empty row when the items
    that remarshal bear other names. *)
Theorem showItem_fails_on_nothing
    (again : Catalog.CatalogItem → option Catalog.CatalogItem)
    (range : gmap string Catalog.CatalogItem → list (string * Catalog.CatalogItem))
    (found : gmap string Catalog.CatalogItem) (name : string) :
  (∀ m, range m ≡ₚ map_to_list m) →
  (Catalog.showItem again range found name
   = inl ("No item named " +:+ name +:+ " in the catalog")
   ↔ ∀ k v, found !! k = Some v → again v = None)
  ∧ ((∃ k v, found !! k = Some v ∧ again v ≠ None) →
     Catalog.showItem again range found name
     = inr (default (Catalog.mkCat "" [])
              (Catalog.itemsTable again range found !! name))).
Proof.
  intros Hrange. unfold Catalog.showItem, Catalog.itemsTable. cbv zeta.
  assert (Catalog.collect again (range found) = ∅
          ↔ ∀ k v, found !! k = Some v → again v = None) as Hempty.
  { split.
    - intros He k v Hk.
      assert ((k, v) ∈ range found) as Hin
        by (rewrite Hrange; by apply elem_of_map_to_list).
      destruct (again v) as [item|] eqn:Ha; [|done]. exfalso.
      pose proof (collect_from again (Catalog.Name item) (range found) ∅) as Hc.
      fold (Catalog.collect again (range found)) in Hc.
      rewrite He, lookup_empty in Hc. cbn in Hc.
      pose proof (versions_of_elem again k v item _ Hin Ha) as Hv.
      destruct (Catalog.versions_of again (Catalog.Name item) (range found));
        [by apply elem_of_nil in Hv|done].
    - intros Hn. apply map_eq. intros n. rewrite lookup_empty.
      pose proof (collect_from again n (range found) ∅) as Hc.
      fold (Catalog.collect again (range found)) in Hc.
      rewrite lookup_empty in Hc. cbn in Hc.
      rewrite (versions_of_none again n (range found)) in Hc.
      + by destruct (Catalog.collect again (range found) !! n).
      + intros k v Hin. apply (Hn k). apply elem_of_map_to_list. by rewrite <- Hrange. }
  split.
  - rewrite <- Hempty. destruct (size _ =? 0)%nat eqn:Hs.
    + apply Nat.eqb_eq, map_size_empty_iff in Hs. by split.
    + apply Nat.eqb_neq in Hs. split; [done|]. intros He. by rewrite He in Hs.
  - intros (k & v & Hk & Ha).
    destruct (size _ =? 0)%nat eqn:Hs; [|done].
    apply Nat.eqb_eq, map_size_empty_iff in Hs.
    destruct Ha. by apply (proj1 Hempty Hs k).
Qed.

Lemma showItem_fails_on_nothing_witness :
  Catalog.showItem (λ _, None) map_to_list {[ "drpcli-v4.2.0" := Sample.drpcli_item ]}
    "drpcli"
  = inl "No item named drpcli in the catalog".
Proof.
  apply (showItem_fails_on_nothing (λ _, None) map_to_list
           {[ "drpcli-v4.2.0" := Sample.drpcli_item ]} "drpcli").
  - intros m. reflexivity.
  - done.
Defined.
